(** * xflight: the in-flight promise registry

    A shallow embedding of the class [Inflight] of [src/index.ts] (the
    TypeScript implementation) and of [lib/index.js] (the CommonJS one),
    with the properties of its methods.

    Conventions of the embedding.
    - A JavaScript number is an integer-valued double, written as the
      integer in [Z] that it is, or NaN.  The registry counts entries
      and subtracts millisecond timestamps; a subtraction gives the
      double nearest to the exact difference ([to_double]), so it is
      exact as long as the difference is at most 2^53 in magnitude.
    - The object [_inflights] is used as a string-keyed table.  Its own
      properties are a list in property order (the order in which
      [Object.values] visits them); a property may hold [undefined],
      which is what [remove] leaves behind.
    - [_inflights] is created as [{}], so a key that is no own property
      is looked up in [Object.prototype]: [this._inflights[key]] is then
      a built-in function for the names of its members
      (["toString"], ["constructor"], ...), [Object.prototype] itself
      for ["__proto__"], and [undefined] otherwise.  The only property
      that the registry ever writes on these built-in objects is
      [lastXTime]; the world records those writes, and a [lastXTime]
      written on [Object.prototype] is in turn what the key
      ["lastXTime"] inherits.
    - Promises live in a heap of promise objects; a promise value is its
      address, so "the identical promise" is equality of addresses.  The
      callbacks that the registry attaches are the closures
      [() => this.remove(key)], kept in first-order form.
    - [Date.now()] reads a clock that may advance between two reads.
    - A method is a function from the world to a completion (normal
      result or thrown value) and the world it leaves; what a method
      changed before it throws stays changed, as in JavaScript. *)

From Stdlib Require Import ZArith String Ascii DecimalString List Lia.
From stdpp Require Import base list strings.

Open Scope Z_scope.

(** ** Values *)

(** The JavaScript values that reach the registry.  [VObject t] is an
    object that is not a promise, whose property [then] holds the value
    [t] ([VUndefined] when it has none); no value of this type is a
    function, so such a [then] is never callable.  [VPromise p] is the
    promise object at address [p].  [VInflight] is the registry instance
    ([this]). *)
Inductive JsValue : Type :=
| VUndefined
| VNull
| VBoolean (b : bool)
| VNumber (n : Z)
| VNaN
| VString (s : string)
| VError (name message : string)
| VObject (then_ : JsValue)
| VPromise (p : nat)
| VInflight.

(** ToBoolean. *)
Definition truthy (v : JsValue) : bool :=
  match v with
  | VUndefined | VNull | VNaN => false
  | VBoolean b => b
  | VNumber n => negb (n =? 0)
  | VString s => negb (String.eqb s "")
  | VError _ _ | VObject _ | VPromise _ | VInflight => true
  end.

(** What reading [p.then] gives on a value [p] that is not nullish. *)
Inductive ThenProperty : Type :=
| ThenFunction
| ThenValue (v : JsValue).

Definition get_then (p : JsValue) : ThenProperty :=
  match p with
  | VPromise _ => ThenFunction
  | VObject t => ThenValue t
  | _ => ThenValue VUndefined
  end.

(** [typeof p.then === "function"] *)
Definition typeof_then_is_function (p : JsValue) : bool :=
  match get_then p with
  | ThenFunction => true
  | ThenValue _ => false
  end.

(** ToBoolean of [p.then] *)
Definition then_truthy (p : JsValue) : bool :=
  match get_then p with
  | ThenFunction => true
  | ThenValue t => truthy t
  end.

(** [`${n}`] for an integer. *)
Definition number_to_string (n : Z) : string :=
  NilZero.string_of_int (Z.to_int n).

(** The double nearest to the integer [z], ties going to the even
    significand of 53 bits: what an operation on doubles returns when
    its exact result is [z].  Up to 2^53 in magnitude every integer is
    a double. *)
Definition to_double (z : Z) : Z :=
  let a := Z.abs z in
  let e := Z.log2 a - 52 in
  if e <=? 0 then z
  else
    let q := Z.shiftr a e in
    let r := a - Z.shiftl q e in
    let half := Z.shiftl 1 (e - 1) in
    let q' := if r <? half then q
              else if half <? r then q + 1
              else if Z.even q then q else q + 1 in
    Z.sgn z * Z.shiftl q' e.

(** [a - b], where [b] may be [undefined] ([None]): NaN then. *)
Definition minus (a : Z) (b : option Z) : JsValue :=
  match b with
  | Some n => VNumber (to_double (a - n))
  | None => VNaN
  end.

(** ** The table [_inflights] *)

Record InflightItem : Type := mkItem {
  start : Z;
  lastXTime : Z;
  value : JsValue
}.

(** An own property of [_inflights]: its key and what it holds, an item
    or [undefined] ([None]). *)
Definition Props : Type := list (string * option InflightItem).

(** The item that the own property [key] holds: [None] when there is no
    such own property, or when it holds [undefined]. *)
Fixpoint get_prop (o : Props) (key : string) : option InflightItem :=
  match o with
  | [] => None
  | (k, s) :: o' => if String.eqb k key then s else get_prop o' key
  end.

(** [Object.hasOwn(o, key)] *)
Fixpoint has_own (o : Props) (key : string) : bool :=
  match o with
  | [] => false
  | (k, _) :: o' => if String.eqb k key then true else has_own o' key
  end.

(** Property order: array indices (canonical decimal strings below
    2^32 - 1) come first, in ascending order, then the other keys in
    creation order. *)
Definition digit_of (c : ascii) : option N :=
  let n := N_of_ascii c in
  if ((48 <=? n) && (n <=? 57))%N then Some (n - 48)%N else None.

Fixpoint digits_value (s : string) (acc : N) : option N :=
  match s with
  | EmptyString => Some acc
  | String c s' =>
      match digit_of c with
      | Some d => digits_value s' (10 * acc + d)%N
      | None => None
      end
  end.

Definition array_index (key : string) : option N :=
  match key with
  | EmptyString => None
  | String c rest =>
      if Ascii.eqb c "0"%char && negb (String.eqb rest "") then None
      else match digits_value key 0%N with
           | Some n => if (n <? 4294967295)%N then Some n else None
           | None => None
           end
  end.

Fixpoint replace_prop (o : Props) (key : string) (s : option InflightItem) : Props :=
  match o with
  | [] => []
  | (k, s0) :: o' =>
      if String.eqb k key then (k, s) :: o' else (k, s0) :: replace_prop o' key s
  end.

Fixpoint insert_index (n : N) (key : string) (s : option InflightItem) (o : Props) : Props :=
  match o with
  | [] => [(key, s)]
  | (k, s0) :: o' =>
      match array_index k with
      | Some m => if (m <? n)%N then (k, s0) :: insert_index n key s o'
                  else (key, s) :: (k, s0) :: o'
      | None => (key, s) :: (k, s0) :: o'
      end
  end.

(** [o[key] = s] as the definition of a data property: an own property
    is overwritten in place, a new one takes its place in property
    order. *)
Definition set_prop (o : Props) (key : string) (s : option InflightItem) : Props :=
  if has_own o key then replace_prop o key s
  else match array_index key with
       | Some n => insert_index n key s o
       | None => o ++ [(key, s)]
       end.

(** [o[key] = undefined] on an object whose prototype is
    [Object.prototype].  The name ["__proto__"] is an accessor there:
    unless the object has an own property of that name, the assignment
    calls the setter, which ignores a value that is neither an object
    nor [null].  Every other name gets an own property. *)
Definition assign_undefined (o : Props) (key : string) : Props :=
  if negb (has_own o key) && String.eqb key "__proto__" then o
  else set_prop o key None.

(** The keys whose property holds an item, in property order. *)
Fixpoint tracked_keys (o : Props) : list string :=
  match o with
  | [] => []
  | (k, Some _) :: o' => k :: tracked_keys o'
  | (k, None) :: o' => tracked_keys o'
  end.

(** ** What the table inherits *)

(** The function-valued members of [Object.prototype]. *)
Definition Object_prototype_functions : list string :=
  ["constructor"; "__defineGetter__"; "__defineSetter__"; "hasOwnProperty";
   "__lookupGetter__"; "__lookupSetter__"; "isPrototypeOf";
   "propertyIsEnumerable"; "toString"; "valueOf"; "toLocaleString"]%string.

Definition is_Object_prototype_function (key : string) : bool :=
  existsb (String.eqb key) Object_prototype_functions.

(** The built-in objects that a lookup in the table can return:
    [Object.prototype] itself (what the accessor [__proto__] gives), and
    the function that is its member of a given name. *)
Inductive Builtin : Type :=
| ObjectPrototype
| PrototypeFunction (name : string).

Definition Builtin_eqb (a b : Builtin) : bool :=
  match a, b with
  | ObjectPrototype, ObjectPrototype => true
  | PrototypeFunction m, PrototypeFunction n => String.eqb m n
  | _, _ => false
  end.

(** The own properties [lastXTime] that have been written on built-in
    objects, latest first. *)
Definition Written : Type := list (Builtin * Z).

Fixpoint own_lastXTime (l : Written) (b : Builtin) : option Z :=
  match l with
  | [] => None
  | (b0, t) :: l' => if Builtin_eqb b0 b then Some t else own_lastXTime l' b
  end.

(** [b.lastXTime]: the object's own property, or else that of
    [Object.prototype], which every built-in object inherits from. *)
Definition builtin_lastXTime (l : Written) (b : Builtin) : option Z :=
  match own_lastXTime l b with
  | Some t => Some t
  | None => own_lastXTime l ObjectPrototype
  end.

(** What [this._inflights[key]] gives. *)
Inductive Found : Type :=
| FUndefined
| FItem (x : InflightItem)
| FBuiltin (b : Builtin)
| FNumber (n : Z).

(** The lookup of a key that is no own property, in [Object.prototype]. *)
Definition inherited (l : Written) (key : string) : Found :=
  if String.eqb key "__proto__" then FBuiltin ObjectPrototype
  else if is_Object_prototype_function key then FBuiltin (PrototypeFunction key)
  else if String.eqb key "lastXTime" then
    match own_lastXTime l ObjectPrototype with
    | Some t => FNumber t
    | None => FUndefined
    end
  else FUndefined.

(** [o[key]] for an object [o] with the own properties [props] and the
    prototype [Object.prototype]. *)
Definition lookup_in (props : Props) (l : Written) (key : string) : Found :=
  if has_own props key then
    match get_prop props key with
    | Some x => FItem x
    | None => FUndefined
    end
  else inherited l key.

(** ToBoolean of what was found. *)
Definition found_truthy (x : Found) : bool :=
  match x with
  | FUndefined => false
  | FItem _ | FBuiltin _ => true
  | FNumber n => negb (n =? 0)
  end.

(** [x === undefined] *)
Definition is_undefined (x : Found) : bool :=
  match x with
  | FUndefined => true
  | _ => false
  end.

(** [x.value] and [x.start] for an [x] that is not [undefined]: only an
    item has them. *)
Definition found_value (x : Found) : JsValue :=
  match x with
  | FItem i => value i
  | _ => VUndefined
  end.

Definition found_start (x : Found) : option Z :=
  match x with
  | FItem i => Some (start i)
  | _ => None
  end.

(** [x && e]: [x] itself when it is falsy ([undefined], or the number
    0), else [e]. *)
Definition and_value (x : Found) (e : JsValue) : JsValue :=
  match x with
  | FUndefined => VUndefined
  | FNumber n => if n =? 0 then VNumber n else e
  | FItem _ | FBuiltin _ => e
  end.

Definition and_number (x : Found) (e : option Z) : option Z :=
  match x with
  | FUndefined => None
  | FNumber n => if n =? 0 then Some n else e
  | FItem _ | FBuiltin _ => e
  end.

(** ** Promise objects, the registry and the world *)

(** A Promise implementation: the platform's own, the export of an
    optional module, or some other constructor supplied by the caller. *)
Inductive PromiseConstructor : Type :=
| GlobalPromise
| Required (module : string)
| Supplied (tag : nat).

Inductive PromiseState : Type :=
| Pending
| Fulfilled (v : JsValue)
| Rejected (reason : JsValue).

(** The closure [() => this.remove(key)]. *)
Inductive Callback : Type :=
| RemoveKey (key : string).

(** What [p.then(onFulfilled, onRejected)] records on a pending [p];
    [derived] is the promise that [then] returned. *)
Record Reaction : Type := mkReaction {
  onFulfilled : Callback;
  onRejected : Callback;
  derived : nat
}.

Record PromiseObject : Type := mkPromise {
  made_by : PromiseConstructor;
  state : PromiseState;
  reactions : list Reaction
}.

(** A callback that is due, with its argument and the derived promise
    that its completion settles. *)
Record Job : Type := mkJob {
  callback : Callback;
  argument : JsValue;
  target : nat
}.

Record Inflight : Type := mkInflight {
  _count : Z;
  _inflights : Props;
  Promise : PromiseConstructor
}.

Record World : Type := mkWorld {
  this : Inflight;
  heap : list PromiseObject;
  jobs : list Job;
  clock : nat -> Z;
  reads : nat;
  written : Written
}.

Definition with_this (o : Inflight) (w : World) : World :=
  mkWorld o (heap w) (jobs w) (clock w) (reads w) (written w).

Definition with_heap (h : list PromiseObject) (w : World) : World :=
  mkWorld (this w) h (jobs w) (clock w) (reads w) (written w).

Definition with_jobs (js : list Job) (w : World) : World :=
  mkWorld (this w) (heap w) js (clock w) (reads w) (written w).

Definition with_written (l : Written) (w : World) : World :=
  mkWorld (this w) (heap w) (jobs w) (clock w) (reads w) l.

(** [this._inflights[key]] in a world. *)
Definition lookup (w : World) (key : string) : Found :=
  lookup_in (_inflights (this w)) (written w) key.

(** ** Completions and the method monad *)

Inductive Completion (A : Type) : Type :=
| Normal (a : A)
| Throw (e : JsValue).

Arguments Normal {A} a.
Arguments Throw {A} e.

Definition M (A : Type) : Type := World -> Completion A * World.

Definition ret {A} (a : A) : M A := fun w => (Normal a, w).

Definition throw {A} (e : JsValue) : M A := fun w => (Throw e, w).

Definition bind {A B} (m : M A) (k : A -> M B) : M B :=
  fun w =>
    match m w with
    | (Normal a, w') => k a w'
    | (Throw e, w') => (Throw e, w')
    end.

(** [try { m } catch (err) { h err }] *)
Definition try_catch {A} (m : M A) (h : JsValue -> M A) : M A :=
  fun w =>
    match m w with
    | (Normal a, w') => (Normal a, w')
    | (Throw e, w') => h e w'
    end.

Notation "x <- m ;; k" := (bind m (fun x => k))
  (at level 100, m at next level, right associativity).
Notation "m ;;; k" := (bind m (fun _ => k))
  (at level 100, right associativity).

Definition get_this : M Inflight := fun w => (Normal (this w), w).

Definition put_this (o : Inflight) : M unit := fun w => (Normal tt, with_this o w).

(** [this._inflights[key]] *)
Definition inflights_at (key : string) : M Found :=
  fun w => (Normal (lookup w key), w).

(** A caller-supplied function of no argument: it may do anything to the
    world, and returns or throws. *)
Definition Factory : Type := M JsValue.

(** [assert(cond, message)] of [node:assert]. *)
Definition assert (cond : bool) (message : string) : M unit :=
  if cond then ret tt else throw (VError "AssertionError" message).

(** [Date.now()] *)
Definition Date_now : M Z :=
  fun w => (Normal (clock w (reads w)),
            mkWorld (this w) (heap w) (jobs w) (clock w) (S (reads w)) (written w)).

(** [now || Date.now()] for [now : number | undefined] *)
Definition now_or_Date_now (now : option Z) : M Z :=
  match now with
  | Some n => if n =? 0 then Date_now else ret n
  | None => Date_now
  end.

(** ** The Promise implementation *)

Definition alloc (o : PromiseObject) : M nat :=
  fun w => (Normal (length (heap w)), with_heap (heap w ++ [o]) w).

(** [P.reject(err)] *)
Definition reject (P : PromiseConstructor) (err : JsValue) : M JsValue :=
  p <- alloc (mkPromise P (Rejected err) []) ;;
  ret (VPromise p).

Definition not_a_function : JsValue :=
  VError "TypeError" "this.add(...).then is not a function".

(** [v.then(onF, onR)].  On a pending promise the pair of callbacks is
    recorded; on a settled one the matching callback becomes due.  A
    value with no callable [then] (or a promise address with no object
    behind it) makes the call throw. *)
Definition then_ (v : JsValue) (onF onR : Callback) : M JsValue :=
  match v with
  | VPromise p =>
      fun w =>
        match heap w !! p with
        | Some obj =>
            let d := length (heap w) in
            let h := heap w ++ [mkPromise (made_by obj) Pending []] in
            match state obj with
            | Pending =>
                (Normal (VPromise d),
                 with_heap (<[p := mkPromise (made_by obj) Pending
                                     (reactions obj ++ [mkReaction onF onR d])]> h) w)
            | Fulfilled x =>
                (Normal (VPromise d),
                 with_jobs (jobs w ++ [mkJob onF x d]) (with_heap h w))
            | Rejected e =>
                (Normal (VPromise d),
                 with_jobs (jobs w ++ [mkJob onR e d]) (with_heap h w))
            end
        | None => (Throw not_a_function, w)
        end
  | _ => throw not_a_function
  end.

(** How the outside runtime settles a promise. *)
Inductive Settlement : Type :=
| Success (v : JsValue)
| Failure (reason : JsValue).

Definition settled (s : Settlement) : PromiseState :=
  match s with
  | Success v => Fulfilled v
  | Failure e => Rejected e
  end.

Definition job_of (s : Settlement) (r : Reaction) : Job :=
  match s with
  | Success v => mkJob (onFulfilled r) v (derived r)
  | Failure e => mkJob (onRejected r) e (derived r)
  end.

(** Settling a pending promise makes its recorded callbacks due, in the
    order of attachment; a settled promise stays as it is. *)
Definition settle (p : nat) (s : Settlement) (w : World) : World :=
  match heap w !! p with
  | Some obj =>
      match state obj with
      | Pending =>
          with_jobs (jobs w ++ map (job_of s) (reactions obj))
            (with_heap (<[p := mkPromise (made_by obj) (settled s) []]> (heap w)) w)
      | _ => w
      end
  | None => w
  end.

(** ** The methods common to both implementations

    [add], [get], [remove], [isEmpty], [count] and the time queries have
    the same body in [src/index.ts] and [lib/index.js]. *)

(** The assignment [this._inflights[key] = { ... }] is reached only when
    the lookup gave [undefined], which the inherited accessor
    ["__proto__"] never does: it always defines a data property. *)
Definition add (key : string) (value : JsValue) (now : option Z) : M JsValue :=
  x <- inflights_at key ;;
  assert (is_undefined x)
         ("xflight: item " +:+ key +:+ " already exist") ;;;
  o <- get_this ;;
  put_this (mkInflight (_count o + 1) (_inflights o) (Promise o)) ;;;
  now <- now_or_Date_now now ;;
  o <- get_this ;;
  put_this (mkInflight (_count o)
              (set_prop (_inflights o) key (Some (mkItem now now value)))
              (Promise o)) ;;;
  ret value.

Definition get (key : string) : M JsValue :=
  x <- inflights_at key ;;
  ret (and_value x (found_value x)).

Definition remove (key : string) : M unit :=
  x <- inflights_at key ;;
  assert (negb (is_undefined x))
         ("xflight: removing non-existing item " +:+ key) ;;;
  o <- get_this ;;
  assert (0 <? _count o)
         ("xflight: removing item " +:+ key +:+ " but list is empty - count "
          +:+ number_to_string (_count o)) ;;;
  put_this (mkInflight (_count o - 1) (_inflights o) (Promise o)) ;;;
  o <- get_this ;;
  if _count o =? 0
  then put_this (mkInflight (_count o) [] (Promise o))
  else put_this (mkInflight (_count o) (assign_undefined (_inflights o) key) (Promise o)).

Definition isEmpty : M bool :=
  o <- get_this ;; ret (_count o =? 0).

Definition count : M Z :=
  o <- get_this ;; ret (_count o).

Definition getStartTime (key : string) : M (option Z) :=
  x <- inflights_at key ;;
  ret (and_number x (found_start x)).

Definition time (key : string) (now : option Z) : M JsValue :=
  x <- inflights_at key ;;
  if found_truthy x then
    t <- now_or_Date_now now ;;
    ret (minus t (found_start x))
  else ret (VNumber (-1)).

Definition elapseTime (key : string) (now : option Z) : M JsValue :=
  time key now.

(** [x.lastXTime] for an [x] that is not [undefined]: the item's own
    check time; on a built-in object what has been written there or on
    [Object.prototype]; on a number what [Object.prototype] has. *)
Definition get_lastXTime (x : Found) : M (option Z) :=
  fun w =>
    (Normal (match x with
             | FItem i => Some (lastXTime i)
             | FBuiltin b => builtin_lastXTime (written w) b
             | FNumber _ => own_lastXTime (written w) ObjectPrototype
             | FUndefined => None
             end), w).

Definition getCheckTime (key : string) : M (option Z) :=
  x <- inflights_at key ;;
  t <- get_lastXTime x ;;
  ret (and_number x t).

Definition lastCheckTime (key : string) (now : option Z) : M JsValue :=
  x <- inflights_at key ;;
  if found_truthy x then
    t <- now_or_Date_now now ;;
    l <- get_lastXTime x ;;
    ret (minus t l)
  else ret (VNumber (-1)).

Definition elapseCheckTime (key : string) (now : option Z) : M JsValue :=
  lastCheckTime key now.

(** [x.lastXTime = t] on an item *)
Definition set_lastXTime (x : InflightItem) (t : Z) : InflightItem :=
  mkItem (start x) t (value x).

(** [x.lastXTime = now || Date.now()] on the item held under [key] *)
Definition reset_item (key : string) (x : InflightItem) (now : option Z) : M unit :=
  t <- now_or_Date_now now ;;
  o <- get_this ;;
  put_this (mkInflight (_count o)
              (replace_prop (_inflights o) key (Some (set_lastXTime x t)))
              (Promise o)).

(** What strict code throws when it assigns a property on a number. *)
Definition cannot_create_property (n : Z) : JsValue :=
  VError "TypeError"
    ("Cannot create property 'lastXTime' on number '" +:+ number_to_string n +:+ "'").

(** [x.lastXTime = now || Date.now()] for the truthy [x] that was found
    under [key]: the right-hand side is evaluated, then the property is
    written on the item or on the built-in object; on a number the
    write throws. *)
Definition assign_lastXTime (key : string) (x : Found) (now : option Z) : M unit :=
  match x with
  | FItem i => reset_item key i now
  | FBuiltin b =>
      t <- now_or_Date_now now ;;
      fun w => (Normal tt, with_written ((b, t) :: written w) w)
  | FNumber n =>
      t <- now_or_Date_now now ;;
      throw (cannot_create_property n)
  | FUndefined => ret tt
  end.

(** [optionalRequire(name)]: the module's export when it is installed,
    nothing otherwise (it does not throw). *)
Definition optionalRequire (installed : string -> bool) (name : string)
  : option PromiseConstructor :=
  if installed name then Some (Required name) else None.

(** ** The job queue *)

Definition run_callback (cb : Callback) : M JsValue :=
  match cb with
  | RemoveKey key => remove key ;;; ret VUndefined
  end.

(** Run a due callback; its completion settles the derived promise. *)
Definition run_job (j : Job) (w : World) : World :=
  match run_callback (callback j) w with
  | (Normal v, w') => settle (target j) (Success v) w'
  | (Throw e, w') => settle (target j) (Failure e) w'
  end.

Fixpoint run_jobs (fuel : nat) (w : World) : World :=
  match fuel with
  | O => w
  | S fuel' =>
      match jobs w with
      | [] => w
      | j :: rest => run_jobs fuel' (run_job j (with_jobs rest w))
      end
  end.

(** The callbacks that are due or recorded: a bound on the jobs left. *)
Definition pending_work (w : World) : nat :=
  (length (jobs w) + sum_list (map (fun o => length (reactions o)) (heap w)))%nat.

(** Run the queue until it is empty. *)
Definition drain (w : World) : World :=
  run_jobs (pending_work w) w.

(** ** [src/index.ts] *)
Module Ts.

(** [xPromise || optionalRequire("bluebird") || optionalRequire("aveazul")
    || globalThis.Promise] *)
Definition constructor (installed : string -> bool)
           (xPromise : option PromiseConstructor) : Inflight :=
  mkInflight 0 []
    (match xPromise with
     | Some P => P
     | None =>
         match optionalRequire installed "bluebird" with
         | Some P => P
         | None =>
             match optionalRequire installed "aveazul" with
             | Some P => P
             | None => GlobalPromise
             end
         end
     end).

Definition promise (key : string) (promiseFactory : Factory) : M JsValue :=
  f <- inflights_at key ;;
  if found_truthy f then ret (found_value f)
  else
    let remove := RemoveKey key in
    try_catch
      (p <- promiseFactory ;;
       assert (truthy p && typeof_then_is_function p)
              ("xflight: promiseFactory for key " +:+ key
               +:+ " didn't return a promise") ;;;
       q <- add key p None ;;
       _ <- then_ q remove remove ;;
       ret p)
      (fun err => o <- get_this ;; reject (Promise o) err).

(** The loop [Object.values(this._inflights).forEach(x => { if (x)
    x.lastXTime = now || Date.now(); })]: the own properties are visited
    in property order, and the clock is read at each item when [now]
    does not stand. *)
Fixpoint reset_each (values : Props) (now : option Z) : M Props :=
  match values with
  | [] => ret []
  | (k, Some x) :: rest =>
      t <- now_or_Date_now now ;;
      rest' <- reset_each rest now ;;
      ret ((k, Some (set_lastXTime x t)) :: rest')
  | (k, None) :: rest =>
      rest' <- reset_each rest now ;;
      ret ((k, None) :: rest')
  end.

(** [key] is [None] when the argument is omitted; [if (key)] takes an
    empty string as it takes an omitted key. *)
Definition resetCheckTime (key : option string) (now : option Z) : M JsValue :=
  let reset_all : M unit :=
    o <- get_this ;;
    props <- reset_each (_inflights o) now ;;
    o' <- get_this ;;
    put_this (mkInflight (_count o') props (Promise o')) in
  match key with
  | Some k =>
      if truthy (VString k) then
        x <- inflights_at k ;;
        if found_truthy x then assign_lastXTime k x now else ret tt
      else reset_all
  | None => reset_all
  end ;;;
  ret VInflight.

End Ts.

(** ** [lib/index.js] *)
Module Js.

(** The module-level [Promise]:
    [optionalRequire("bluebird", { default: global.Promise })] *)
Definition module_Promise (installed : string -> bool) : PromiseConstructor :=
  match optionalRequire installed "bluebird" with
  | Some P => P
  | None => GlobalPromise
  end.

Definition constructor (installed : string -> bool)
           (xPromise : option PromiseConstructor) : Inflight :=
  mkInflight 0 []
    (match xPromise with
     | Some P => P
     | None => module_Promise installed
     end).

Definition promise (key : string) (func : Factory) : M JsValue :=
  f <- inflights_at key ;;
  if found_truthy f then ret (found_value f)
  else
    let remove := RemoveKey key in
    try_catch
      (p <- func ;;
       assert (truthy p && then_truthy p)
              ("xflight: func for key " +:+ key
               +:+ " didn't return a promise") ;;;
       q <- add key p None ;;
       _ <- then_ q remove remove ;;
       ret p)
      (fun err => o <- get_this ;; reject (Promise o) err).

(** [this._inflights[key]] with [key] possibly [undefined]: the
    property key is then the string ["undefined"]. *)
Definition to_property_key (key : option string) : string :=
  match key with
  | Some k => k
  | None => "undefined"
  end.

Definition resetCheckTime (key : option string) (now : option Z) : M JsValue :=
  x <- inflights_at (to_property_key key) ;;
  (if found_truthy x then assign_lastXTime (to_property_key key) x now else ret tt) ;;;
  ret VInflight.

End Js.

(** ** Calls of the public interface *)

Inductive Op : Type :=
| OpPromise (key : string) (factory : Factory)
| OpAdd (key : string) (value : JsValue) (now : option Z)
| OpGet (key : string)
| OpRemove (key : string)
| OpIsEmpty
| OpCount
| OpGetStartTime (key : string)
| OpTime (key : string) (now : option Z)
| OpElapseTime (key : string) (now : option Z)
| OpGetCheckTime (key : string)
| OpLastCheckTime (key : string) (now : option Z)
| OpElapseCheckTime (key : string) (now : option Z)
| OpResetCheckTime (key : option string) (now : option Z).

Definition number_or_undefined (x : option Z) : JsValue :=
  match x with
  | Some n => VNumber n
  | None => VUndefined
  end.

(** A call, given the two methods in which the implementations differ;
    every result is injected into [JsValue]. *)
Definition call (promise : string -> Factory -> M JsValue)
           (resetCheckTime : option string -> option Z -> M JsValue)
           (op : Op) : M JsValue :=
  match op with
  | OpPromise key factory => promise key factory
  | OpAdd key value now => add key value now
  | OpGet key => get key
  | OpRemove key => remove key ;;; ret VUndefined
  | OpIsEmpty => b <- isEmpty ;; ret (VBoolean b)
  | OpCount => n <- count ;; ret (VNumber n)
  | OpGetStartTime key => t <- getStartTime key ;; ret (number_or_undefined t)
  | OpTime key now => time key now
  | OpElapseTime key now => elapseTime key now
  | OpGetCheckTime key => t <- getCheckTime key ;; ret (number_or_undefined t)
  | OpLastCheckTime key now => lastCheckTime key now
  | OpElapseCheckTime key now => elapseCheckTime key now
  | OpResetCheckTime key now => resetCheckTime key now
  end.

Inductive Implementation : Type :=
| SrcIndexTs
| LibIndexJs.

Definition promise_in (impl : Implementation) : string -> Factory -> M JsValue :=
  match impl with
  | SrcIndexTs => Ts.promise
  | LibIndexJs => Js.promise
  end.

Definition resetCheckTime_in (impl : Implementation)
  : option string -> option Z -> M JsValue :=
  match impl with
  | SrcIndexTs => Ts.resetCheckTime
  | LibIndexJs => Js.resetCheckTime
  end.

Definition call_in (impl : Implementation) : Op -> M JsValue :=
  call (promise_in impl) (resetCheckTime_in impl).

Definition call_ts : Op -> M JsValue := call_in SrcIndexTs.
Definition call_js : Op -> M JsValue := call_in LibIndexJs.

(** The calls that change the table by hand. *)
Inductive Mutation : Type :=
| Add (key : string) (value : JsValue) (now : option Z)
| Remove (key : string).

Definition mutation_op (m : Mutation) : Op :=
  match m with
  | Add key value now => OpAdd key value now
  | Remove key => OpRemove key
  end.

(** A sequence of calls by a caller that goes on after an exception:
    the completions in order, and the world left. *)
Fixpoint run (call : Op -> M JsValue) (ops : list Op) (w : World)
  : list (Completion JsValue) * World :=
  match ops with
  | [] => ([], w)
  | op :: rest =>
      let (r, w') := call op w in
      let (rs, w'') := run call rest w' in
      (r :: rs, w'')
  end.

(** A world in which nothing has happened yet but [new Inflight(xPromise)]:
    no promise, no job, and the built-in objects as the platform makes
    them. *)
Definition new_world (o : Inflight) (clock : nat -> Z) : World :=
  mkWorld o [] [] clock 0 [].

(** ** Vocabulary of the properties *)

(** The errors of the interface are failed assertions; these are the
    thrown values, under the names the documentation gives them. *)
Definition DuplicateKeyError (key : string) : JsValue :=
  VError "AssertionError" ("xflight: item " +:+ key +:+ " already exist").

Definition MissingKeyError (key : string) : JsValue :=
  VError "AssertionError" ("xflight: removing non-existing item " +:+ key).

Definition InternalConsistencyError (key : string) (count : Z) : JsValue :=
  VError "AssertionError"
    ("xflight: removing item " +:+ key +:+ " but list is empty - count "
     +:+ number_to_string count).

Definition InvalidFactoryResult (key : string) : JsValue :=
  VError "AssertionError"
    ("xflight: promiseFactory for key " +:+ key +:+ " didn't return a promise").

(** What a slot adds to the number of items. *)
Definition holds (s : option InflightItem) : nat :=
  match s with
  | Some _ => 1%nat
  | None => 0%nat
  end.

(** [key] is tracked: an own property of [_inflights] holds an item
    under it (an own property comes before anything inherited). *)
Definition tracked (w : World) (key : string) : Prop :=
  is_Some (get_prop (_inflights (this w)) key).

(** Nothing is found under [key]: [this._inflights[key]] is
    [undefined], there being no own property of that name (or one that
    holds [undefined]) and nothing inherited under it. *)
Definition untracked (w : World) (key : string) : Prop :=
  lookup w key = FUndefined.

(** The names under which [Object.prototype] gives something, or comes
    to give something once a check time has been written on it. *)
Definition inherited_name (key : string) : bool :=
  String.eqb key "__proto__" || is_Object_prototype_function key
  || String.eqb key "lastXTime".

(** A key that is none of these names: its lookup is a matter of own
    properties only. *)
Definition plain (key : string) : Prop := inherited_name key = false.

(** The registry is consistent: no key has two properties, and the
    counter is the number of keys that hold an item. *)
Definition consistent (o : Inflight) : Prop :=
  NoDup (map fst (_inflights o)) /\
  _count o = Z.of_nat (length (tracked_keys (_inflights o))).

(** The completion hook of [key] is in place on promise [p]: recorded on
    the pending promise, or already due. *)
Definition hook_armed (key : string) (p : nat) (w : World) : Prop :=
  (exists obj d,
      heap w !! p = Some obj /\ state obj = Pending /\
      In (mkReaction (RemoveKey key) (RemoveKey key) d) (reactions obj))
  \/ (exists arg d, In (mkJob (RemoveKey key) arg d) (jobs w)).

(** The key that a hook removes. *)
Definition hook_key (cb : Callback) : string :=
  match cb with
  | RemoveKey key => key
  end.

(** Every hook that is due or recorded is the hook of a plain key. *)
Definition plain_hooks (w : World) : Prop :=
  Forall (fun j => plain (hook_key (callback j))) (jobs w) /\
  Forall (fun obj =>
            Forall (fun r => plain (hook_key (onFulfilled r)) /\
                             plain (hook_key (onRejected r)))
                   (reactions obj))
         (heap w).

(** The promise at address [p] exists and is rejected with [reason]. *)
Definition rejected_with (w : World) (p : nat) (reason : JsValue) : Prop :=
  exists obj, heap w !! p = Some obj /\ state obj = Rejected reason.

(** The calls on which the two implementations are compared: every call
    but [resetCheckTime] without a key (or with the empty key) and
    [promise] with a factory whose result is not a promise. *)
Definition common_ground (op : Op) (w : World) : Prop :=
  match op with
  | OpResetCheckTime key _ => exists k, key = Some k /\ k <> ""%string
  | OpPromise key factory =>
      tracked w key
      \/ (exists e w', factory w = (Throw e, w'))
      \/ (exists p w', factory w = (Normal (VPromise p), w'))
  | _ => True
  end.

Fixpoint all_common_ground (ops : list Op) (w : World) : Prop :=
  match ops with
  | [] => True
  | op :: rest => common_ground op w /\ all_common_ground rest (snd (call_ts op w))
  end.

(** [now] is given, and is not the number that [||] takes for an
    omitted argument. *)
Definition stands (now : option Z) : Prop :=
  match now with
  | Some n => n <> 0
  | None => True
  end.

(** The time that a method uses: [now] when given, else the clock. *)
Definition now_or_clock (now : option Z) (w : World) : Z :=
  match now with
  | Some n => n
  | None => clock w (reads w)
  end.

(** An integer whose magnitude is at most 2^53: doubles represent these
    exactly, and a difference in this range is computed exactly. *)
Definition safe_integer (z : Z) : Prop := - 2 ^ 53 <= z <= 2 ^ 53.

(** A method keeps a property of the world, whether it returns or
    throws. *)
Definition preserves {A} (P : World -> Prop) (m : M A) : Prop :=
  forall w, P w -> P (snd (m w)).

(** A property of the heap and the queue alone. *)
Definition of_heap_and_jobs (P : World -> Prop) : Prop :=
  forall w w', heap w' = heap w -> jobs w' = jobs w -> P w -> P w'.

(** The count invariant, as a property of the world. *)
Definition registry_consistent (w : World) : Prop := consistent (this w).

(** The factory of a [promise] call keeps the property; nothing is asked
    of the other calls. *)
Definition factory_preserves (P : World -> Prop) (op : Op) : Prop :=
  match op with
  | OpPromise _ factory => preserves P factory
  | _ => True
  end.

(** A call that removes, removes a plain key. *)
Definition removes_plain (op : Op) : Prop :=
  match op with
  | OpRemove key => plain key
  | _ => True
  end.

(** A call that may register or remove, does so for a plain key. *)
Definition on_plain_key (op : Op) : Prop :=
  match op with
  | OpPromise key _ | OpRemove key => plain key
  | _ => True
  end.

(** What happens between the registration of a promise and the run of
    its hook: calls of the interface, and settlements. *)
Inductive Event : Type :=
| Call (op : Op)
| Settle (p : nat) (s : Settlement).

Definition happen (impl : Implementation) (w : World) (ev : Event) : World :=
  match ev with
  | Call op => snd (call_in impl op w)
  | Settle p s => settle p s w
  end.

(** The calls that may come between: on plain keys where they register
    or remove, and with factories that keep the count invariant, the
    hook of [key] on [p], and the hooks plain. *)
Definition well_behaved (key : string) (p : nat) (ev : Event) : Prop :=
  match ev with
  | Call op =>
      on_plain_key op /\
      factory_preserves registry_consistent op /\
      factory_preserves (hook_armed key p) op /\
      factory_preserves plain_hooks op
  | Settle _ _ => True
  end.

(** The keyed branch of [resetCheckTime], the same in both files:
    [const x = this._inflights[key]; if (x) x.lastXTime = now || Date.now();] *)
Definition reset_key (key : string) (now : option Z) : M unit :=
  x <- inflights_at key ;;
  if found_truthy x then assign_lastXTime key x now else ret tt.

(** What the loop of [src/index.ts] leaves of the table when a [now]
    that stands is given: every item has that check time. *)
Definition reset_to (n : Z) (values : Props) : Props :=
  map (fun '(k, s) => (k, option_map (fun x => set_lastXTime x n) s)) values.

(** Two lookups that differ at most in the check time of the item
    found. *)
Definition same_but_check_time (x y : Found) : Prop :=
  match x with
  | FItem i => exists t, y = FItem (set_lastXTime i t)
  | _ => y = x
  end.

(** Two tables that differ at most in the check times of their items. *)
Definition same_but_check_times (o o' : Props) : Prop :=
  map fst o' = map fst o /\
  forall k,
    match get_prop o k with
    | Some y => exists t, get_prop o' k = Some (set_lastXTime y t)
    | None => get_prop o' k = None
    end.

(** The key that [resetCheckTime] looks up, if it looks one up:
    [src/index.ts] does so for a key that is given and not empty,
    [lib/index.js] always, an omitted key being read as ["undefined"]. *)
Definition looked_up (impl : Implementation) (key : option string) : option string :=
  match impl with
  | SrcIndexTs =>
      match key with
      | Some k => if truthy (VString k) then Some k else None
      | None => None
      end
  | LibIndexJs => Some (Js.to_property_key key)
  end.

(** ** Sample worlds *)

Definition no_module : string -> bool := fun _ => false.

Definition only_aveazul : string -> bool := fun name => String.eqb name "aveazul".

(** A clock that starts at 1700000000000 and gains a millisecond
    between two reads. *)
Definition ticking : nat -> Z := fun n => 1700000000000 + Z.of_nat n.

Definition fresh_world : World := new_world (Ts.constructor no_module None) ticking.

(** [() => new Promise(() => {})] *)
Definition pending_factory : Factory :=
  p <- alloc (mkPromise GlobalPromise Pending []) ;; ret (VPromise p).

(** [() => { throw new Error("boom"); }] *)
Definition throwing_factory : Factory := throw (VError "Error" "boom").

(** [() => 42] *)
Definition number_factory : Factory := ret (VNumber 42).

(** Two keys tracked by hand. *)
Definition two_tracked : World :=
  snd (run call_ts [OpAdd "foo" (VString "bar") None;
                    OpAdd "test" (VString "hello") None] fresh_world).

(** A registry whose counter has lost an entry. *)
Definition miscounted : World :=
  with_this (mkInflight 0 [("k", Some (mkItem 1 1 VNull))] GlobalPromise) fresh_world.

(** The world after [promise("k", () => new Promise(() => {}))]. *)
Definition tracked_world : World :=
  snd (Ts.promise "k" pending_factory fresh_world).

(** The calls that only ask. *)
Definition is_query (op : Op) : bool :=
  match op with
  | OpGet _ | OpIsEmpty | OpCount | OpGetStartTime _ | OpTime _ _
  | OpElapseTime _ _ | OpGetCheckTime _ | OpLastCheckTime _ _
  | OpElapseCheckTime _ _ => true
  | OpPromise _ _ | OpAdd _ _ _ | OpRemove _ | OpResetCheckTime _ _ => false
  end.

(** [new Inflight(xPromise)] in each file. *)
Definition constructor_in (impl : Implementation) (installed : string -> bool)
           (xPromise : option PromiseConstructor) : Inflight :=
  match impl with
  | SrcIndexTs => Ts.constructor installed xPromise
  | LibIndexJs => Js.constructor installed xPromise
  end.

(** A call that is no [promise] call and neither adds nor removes
    [key]; what it removes is a plain key. *)
Definition spares (key : string) (op : Op) : Prop :=
  match op with
  | OpPromise _ _ => False
  | OpAdd k _ _ => k <> key
  | OpRemove k => k <> key /\ plain k
  | _ => True
  end.

(** [() => ({ then: 1 })] *)
Definition thenless_factory : Factory := ret (VObject (VNumber 1)).

(** [() => Promise.resolve(42)] *)
Definition resolved_factory : Factory :=
  p <- alloc (mkPromise GlobalPromise (Fulfilled (VNumber 42)) []) ;; ret (VPromise p).

(** A new registry at the instant at which [Date.now()] is 0. *)
Definition at_epoch : World := new_world (Ts.constructor no_module None) (fun _ => 0).

(** * Properties *)
(** ** The table *)

Section table.
Implicit Types (o : Props) (key k : string) (s : option InflightItem).

Lemma has_own_In o key : has_own o key = true <-> In key (map fst o).
Proof.
  induction o as [|[k0 s0] o IH]; simpl.
  - split; [discriminate | tauto].
  - destruct (String.eqb_spec k0 key) as [->|Hne].
    + split; auto.
    + rewrite IH. split; [auto | intros [?|?]; [contradiction | assumption]].
Qed.

Lemma has_own_false o key : has_own o key = false -> get_prop o key = None.
Proof.
  induction o as [|[k0 s0] o IH]; simpl; [reflexivity|].
  destruct (String.eqb k0 key); [discriminate | exact IH].
Qed.

Lemma get_prop_replace_eq o key s :
  has_own o key = true -> get_prop (replace_prop o key s) key = s.
Proof.
  induction o as [|[k0 s0] o IH]; simpl; [discriminate|].
  destruct (String.eqb k0 key) eqn:E; simpl; rewrite E; auto.
Qed.

Lemma get_prop_replace_ne o key k s :
  key <> k -> get_prop (replace_prop o key s) k = get_prop o k.
Proof.
  intros Hne. induction o as [|[k0 s0] o IH]; simpl; [reflexivity|].
  destruct (String.eqb_spec k0 key) as [->|Hk]; simpl.
  - destruct (String.eqb_spec key k); [contradiction | reflexivity].
  - destruct (String.eqb k0 k); [reflexivity | exact IH].
Qed.

Lemma get_prop_insert_index_eq n o key s :
  has_own o key = false -> get_prop (insert_index n key s o) key = s.
Proof.
  induction o as [|[k0 s0] o IH]; simpl.
  - rewrite String.eqb_refl. reflexivity.
  - destruct (String.eqb k0 key) eqn:E; [discriminate|]. intros Hown.
    destruct (array_index k0) as [m|]; [destruct (m <? n)%N|]; simpl;
      rewrite ?String.eqb_refl, ?E; auto.
Qed.

Lemma get_prop_insert_index_ne n o key k s :
  key <> k -> get_prop (insert_index n key s o) k = get_prop o k.
Proof.
  intros Hne.
  assert (Hk : String.eqb key k = false) by (apply String.eqb_neq; exact Hne).
  induction o as [|[k0 s0] o IH]; simpl.
  - rewrite Hk. reflexivity.
  - destruct (array_index k0) as [m|]; [destruct (m <? n)%N|]; simpl;
      rewrite ?Hk, ?IH; reflexivity.
Qed.

Lemma get_prop_app o o' k :
  get_prop (o ++ o') k = if has_own o k then get_prop o k else get_prop o' k.
Proof.
  induction o as [|[k0 s0] o IH]; simpl; [reflexivity|].
  destruct (String.eqb k0 k); [reflexivity | exact IH].
Qed.

(** Reading back what was written, and the other keys. *)
Lemma get_prop_set_prop_eq o key s : get_prop (set_prop o key s) key = s.
Proof.
  unfold set_prop. destruct (has_own o key) eqn:Hown.
  - apply get_prop_replace_eq, Hown.
  - destruct (array_index key).
    + apply get_prop_insert_index_eq, Hown.
    + rewrite get_prop_app, Hown. simpl. rewrite String.eqb_refl. reflexivity.
Qed.

Lemma get_prop_set_prop_ne o key k s :
  key <> k -> get_prop (set_prop o key s) k = get_prop o k.
Proof.
  intros Hne. unfold set_prop. destruct (has_own o key).
  - apply get_prop_replace_ne, Hne.
  - destruct (array_index key).
    + apply get_prop_insert_index_ne, Hne.
    + rewrite get_prop_app. destruct (has_own o k) eqn:Hk; [reflexivity|].
      simpl. apply String.eqb_neq in Hne. rewrite Hne.
      symmetry. apply has_own_false, Hk.
Qed.

(** The keys after a write. *)
Lemma keys_replace_prop o key s : map fst (replace_prop o key s) = map fst o.
Proof.
  induction o as [|[k0 s0] o IH]; simpl; [reflexivity|].
  destruct (String.eqb k0 key); simpl; [reflexivity | rewrite IH; reflexivity].
Qed.

Lemma keys_insert_index n o key s :
  Permutation (map fst (insert_index n key s o)) (key :: map fst o).
Proof.
  induction o as [|[k0 s0] o IH]; simpl; [reflexivity|].
  destruct (array_index k0) as [m|]; [destruct (m <? n)%N|]; simpl;
    try reflexivity.
  rewrite IH. apply perm_swap.
Qed.

Lemma keys_set_prop o key s :
  Permutation (map fst (set_prop o key s))
              (if has_own o key then map fst o else key :: map fst o).
Proof.
  unfold set_prop. destruct (has_own o key).
  - rewrite keys_replace_prop. reflexivity.
  - destruct (array_index key).
    + apply keys_insert_index.
    + rewrite map_app. simpl. symmetry. apply Permutation_cons_append.
Qed.

Lemma NoDup_keys_set_prop o key s :
  NoDup (map fst o) -> NoDup (map fst (set_prop o key s)).
Proof.
  intros Hnd. rewrite keys_set_prop.
  destruct (has_own o key) eqn:Hown; [exact Hnd|].
  apply NoDup_cons. split; [|exact Hnd].
  rewrite list_elem_of_In, <- has_own_In, Hown. discriminate.
Qed.

(** The number of keys that hold an item, before and after a write. *)
Lemma tracked_keys_app o o' :
  tracked_keys (o ++ o') = tracked_keys o ++ tracked_keys o'.
Proof.
  induction o as [|[k0 [x|]] o IH]; simpl; [reflexivity | rewrite IH | exact IH];
    reflexivity.
Qed.

Lemma tracked_keys_In o k : In k (tracked_keys o) -> In k (map fst o).
Proof.
  induction o as [|[k0 [x|]] o IH]; simpl; [tauto | intros [?|?]; auto | auto].
Qed.

Lemma tracked_replace_prop o key s :
  has_own o key = true ->
  (length (tracked_keys (replace_prop o key s)) + holds (get_prop o key)
   = length (tracked_keys o) + holds s)%nat.
Proof.
  induction o as [|[k0 s0] o IH]; simpl; [discriminate|].
  destruct (String.eqb k0 key) eqn:E; simpl.
  - intros _. destruct s0, s; simpl; lia.
  - intros Hown. specialize (IH Hown). destruct s0; simpl; lia.
Qed.

Lemma tracked_insert_index n o key s :
  (length (tracked_keys (insert_index n key s o))
   = length (tracked_keys o) + holds s)%nat.
Proof.
  induction o as [|[k0 s0] o IH]; simpl.
  - destruct s; reflexivity.
  - destruct (array_index k0) as [m|]; [destruct (m <? n)%N|]; simpl;
      destruct s0, s; simpl in *; lia.
Qed.

Lemma tracked_set_prop o key s :
  (length (tracked_keys (set_prop o key s)) + holds (get_prop o key)
   = length (tracked_keys o) + holds s)%nat.
Proof.
  unfold set_prop. destruct (has_own o key) eqn:Hown.
  - apply tracked_replace_prop, Hown.
  - rewrite (has_own_false _ _ Hown). simpl.
    destruct (array_index key).
    + rewrite tracked_insert_index. lia.
    + rewrite tracked_keys_app, length_app. simpl.
      destruct s; simpl; lia.
Qed.

(** With one property per key, the tracked keys are exactly the keys
    whose lookup gives an item, each listed once. *)
Lemma tracked_keys_spec o k :
  NoDup (map fst o) -> In k (tracked_keys o) <-> is_Some (get_prop o k).
Proof.
  induction o as [|[k0 s0] o IH]; simpl.
  - intros _. split; [tauto | intros [? ?]; discriminate].
  - intros Hnd. apply NoDup_cons in Hnd as [Hk0 Hnd]. specialize (IH Hnd).
    destruct (String.eqb_spec k0 k) as [->|Hne].
    + destruct s0 as [x|]; simpl.
      * split; [eauto | auto].
      * split; [|intros [? ?]; discriminate].
        intros Hin. exfalso. apply Hk0.
        apply list_elem_of_In, tracked_keys_In, Hin.
    + destruct s0 as [x|]; simpl; [|exact IH].
      rewrite <- IH. split; [intros [?|?]; [contradiction | assumption] | auto].
Qed.

Lemma NoDup_tracked_keys o : NoDup (map fst o) -> NoDup (tracked_keys o).
Proof.
  induction o as [|[k0 s0] o IH]; simpl; [constructor|].
  intros Hnd. apply NoDup_cons in Hnd as [Hk0 Hnd].
  destruct s0 as [x|]; simpl; [|auto].
  apply NoDup_cons. split; [|auto].
  intros Hin. apply Hk0.
  apply list_elem_of_In, tracked_keys_In, list_elem_of_In, Hin.
Qed.

End table.

(** ** Lookups *)

Section lookups.
Implicit Types (o : Props) (key k : string) (s : option InflightItem) (l : Written).

Lemma get_prop_has_own o key x : get_prop o key = Some x -> has_own o key = true.
Proof.
  intros Hk. destruct (has_own o key) eqn:Hown; [reflexivity|].
  rewrite (has_own_false _ _ Hown) in Hk. discriminate.
Qed.

Lemma has_own_set_prop_eq o key s : has_own (set_prop o key s) key = true.
Proof.
  apply has_own_In. eapply Permutation_in; [symmetry; apply keys_set_prop|].
  destruct (has_own o key) eqn:Hown; [apply has_own_In, Hown | left; reflexivity].
Qed.

Lemma has_own_set_prop_ne o key k s :
  key <> k -> has_own (set_prop o key s) k = has_own o k.
Proof.
  intros Hne.
  assert (H : In k (map fst (set_prop o key s)) <-> In k (map fst o)).
  { split; intros Hin.
    - eapply Permutation_in in Hin; [|apply keys_set_prop].
      destruct (has_own o key); [exact Hin|].
      destruct Hin as [?|?]; [contradiction | assumption].
    - eapply Permutation_in; [symmetry; apply keys_set_prop|].
      destruct (has_own o key); [exact Hin | right; exact Hin]. }
  rewrite <- !has_own_In in H.
  destruct (has_own (set_prop o key s) k), (has_own o k); try reflexivity.
  - symmetry. apply H. reflexivity.
  - apply H. reflexivity.
Qed.

(** An own property comes first: what it holds is what is found. *)
Lemma lookup_in_item o l key x : get_prop o key = Some x -> lookup_in o l key = FItem x.
Proof.
  intros Hk. unfold lookup_in. rewrite (get_prop_has_own _ _ _ Hk), Hk. reflexivity.
Qed.

Lemma lookup_in_undefined o l key : lookup_in o l key = FUndefined -> get_prop o key = None.
Proof.
  unfold lookup_in. destruct (has_own o key) eqn:Hown.
  - destruct (get_prop o key); [discriminate | reflexivity].
  - intros _. apply has_own_false, Hown.
Qed.

Lemma lookup_in_set_prop_eq o l key s :
  lookup_in (set_prop o key s) l key
  = match s with Some x => FItem x | None => FUndefined end.
Proof.
  unfold lookup_in. rewrite has_own_set_prop_eq, get_prop_set_prop_eq. reflexivity.
Qed.

Lemma lookup_in_set_prop_ne o l key k s :
  key <> k -> lookup_in (set_prop o key s) l k = lookup_in o l k.
Proof.
  intros Hne. unfold lookup_in.
  rewrite has_own_set_prop_ne, get_prop_set_prop_ne by exact Hne. reflexivity.
Qed.

(** A plain key inherits nothing, whatever has been written. *)
Lemma inherited_plain l key : plain key -> inherited l key = FUndefined.
Proof.
  unfold plain, inherited_name, inherited. intros H.
  apply orb_false_elim in H as [H H3]. apply orb_false_elim in H as [H1 H2].
  rewrite H1, H2, H3. reflexivity.
Qed.

Lemma lookup_in_plain o l key :
  plain key ->
  lookup_in o l key
  = match get_prop o key with Some x => FItem x | None => FUndefined end.
Proof.
  intros Hp. unfold lookup_in. destruct (has_own o key) eqn:Hown; [reflexivity|].
  rewrite (has_own_false _ _ Hown). apply inherited_plain, Hp.
Qed.

Lemma assign_undefined_own o key :
  has_own o key = true -> assign_undefined o key = set_prop o key None.
Proof. intros Hown. unfold assign_undefined. rewrite Hown. reflexivity. Qed.

Lemma assign_undefined_plain o key :
  plain key -> assign_undefined o key = set_prop o key None.
Proof.
  unfold plain, inherited_name, assign_undefined. intros H.
  apply orb_false_elim in H as [H _]. apply orb_false_elim in H as [H _].
  rewrite H, andb_false_r. reflexivity.
Qed.

End lookups.

Lemma lookup_tracked key x w :
  get_prop (_inflights (this w)) key = Some x -> lookup w key = FItem x.
Proof. apply lookup_in_item. Qed.

Lemma untracked_get_prop key w :
  untracked w key -> get_prop (_inflights (this w)) key = None.
Proof. apply lookup_in_undefined. Qed.

Lemma lookup_plain key w :
  plain key ->
  lookup w key
  = match get_prop (_inflights (this w)) key with
    | Some x => FItem x
    | None => FUndefined
    end.
Proof. apply lookup_in_plain. Qed.

Lemma plain_untracked key w :
  plain key -> get_prop (_inflights (this w)) key = None -> untracked w key.
Proof. intros Hp Hk. unfold untracked. rewrite (lookup_plain key w Hp), Hk. reflexivity. Qed.

(** A plain key is tracked or nothing is found under it. *)
Lemma plain_tracked_or_untracked key w : plain key -> tracked w key \/ untracked w key.
Proof.
  intros Hp. destruct (get_prop (_inflights (this w)) key) as [x|] eqn:Hk.
  - left. exists x. exact Hk.
  - right. apply plain_untracked; assumption.
Qed.

Lemma tracked_not_untracked key w : tracked w key -> untracked w key -> False.
Proof.
  intros [x Hx] Hk. apply untracked_get_prop in Hk. congruence.
Qed.

(** ** Numbers *)

Lemma to_double_safe z : safe_integer z -> to_double z = z.
Proof.
  unfold safe_integer. change (2 ^ 53) with 9007199254740992. intros Hz.
  unfold to_double. cbv zeta.
  destruct (Z.leb_spec (Z.log2 (Z.abs z) - 52) 0) as [_|Hlog]; [reflexivity|].
  assert (Hbig : 9007199254740992 <= Z.abs z).
  { destruct (Z.lt_ge_cases (Z.abs z) 9007199254740992) as [Hlt|Hge]; [|exact Hge].
    exfalso.
    destruct (Z.eq_dec (Z.abs z) 0) as [E|E].
    - rewrite E in Hlog. simpl in Hlog. lia.
    - assert (Hpos : 0 < Z.abs z) by lia.
      pose proof (proj1 (Z.log2_lt_pow2 (Z.abs z) 53 Hpos)) as H.
      change (2 ^ 53) with 9007199254740992 in H. specialize (H Hlt). lia. }
  assert (Hcases : z = 9007199254740992 \/ z = - 9007199254740992) by lia.
  destruct Hcases as [-> | ->]; reflexivity.
Qed.

Lemma minus_safe a b : safe_integer (a - b) -> minus a (Some b) = VNumber (a - b).
Proof. intros H. unfold minus. rewrite (to_double_safe _ H). reflexivity. Qed.
(** ** The clock *)

Lemma now_or_Date_now_given n w :
  n <> 0 -> now_or_Date_now (Some n) w = (Normal n, w).
Proof.
  intros Hn. unfold now_or_Date_now. apply Z.eqb_neq in Hn. rewrite Hn. reflexivity.
Qed.

(** Choosing the time only reads the clock. *)
Lemma now_or_Date_now_frame now w :
  exists t w1,
    now_or_Date_now now w = (Normal t, w1) /\
    this w1 = this w /\ heap w1 = heap w /\ jobs w1 = jobs w /\
    clock w1 = clock w /\ (reads w <= reads w1)%nat.
Proof.
  destruct now as [n|]; simpl; [destruct (n =? 0)|];
    do 2 eexists; (split; [reflexivity|]); simpl; repeat split; lia.
Qed.

Lemma now_or_Date_now_with_this now o w t w1 :
  now_or_Date_now now w = (Normal t, w1) ->
  now_or_Date_now now (with_this o w) = (Normal t, with_this o w1).
Proof.
  destruct now as [n|]; simpl; [destruct (n =? 0)|];
    unfold Date_now, ret; simpl; intros [= <- <-]; reflexivity.
Qed.

Lemma now_or_Date_now_written now w :
  written (snd (now_or_Date_now now w)) = written w.
Proof. destruct now as [n|]; simpl; [destruct (n =? 0)|]; reflexivity. Qed.

(** ** [add] and [remove] *)

Lemma lookup_same w w' key :
  this w' = this w -> written w' = written w -> lookup w' key = lookup w key.
Proof. unfold lookup. intros -> ->. reflexivity. Qed.

(** Whatever is found under the key, own or inherited, [add] refuses. *)
Lemma add_found key v now w :
  lookup w key <> FUndefined -> add key v now w = (Throw (DuplicateKeyError key), w).
Proof.
  intros H. unfold add, bind, inflights_at.
  destruct (lookup w key); [contradiction| | |]; reflexivity.
Qed.

Lemma add_tracked key v now w :
  tracked w key -> add key v now w = (Throw (DuplicateKeyError key), w).
Proof.
  intros [x Hx]. apply add_found. rewrite (lookup_tracked _ _ _ Hx). discriminate.
Qed.

Lemma add_untracked key v now w :
  untracked w key ->
  exists t w1,
    now_or_Date_now now w = (Normal t, w1) /\
    add key v now w =
      (Normal v,
       with_this (mkInflight (_count (this w) + 1)
                    (set_prop (_inflights (this w)) key (Some (mkItem t t v)))
                    (Promise (this w))) w1).
Proof.
  intros Hk. unfold untracked in Hk.
  destruct (now_or_Date_now_frame now w) as (t & w1 & Hnow & Hframe).
  exists t, w1. split; [exact Hnow|].
  unfold add, bind, inflights_at. rewrite Hk. simpl.
  rewrite (now_or_Date_now_with_this _ _ _ _ _ Hnow). reflexivity.
Qed.

Lemma remove_untracked key w :
  untracked w key -> remove key w = (Throw (MissingKeyError key), w).
Proof.
  intros Hk. unfold remove, bind, inflights_at. rewrite Hk. reflexivity.
Qed.

(** When something is found under the key, own or inherited, the first
    assertion of [remove] passes. *)
Lemma remove_found_empty key w :
  lookup w key <> FUndefined -> _count (this w) <= 0 ->
  remove key w = (Throw (InternalConsistencyError key (_count (this w))), w).
Proof.
  intros Hx Hc. unfold remove, bind, inflights_at, get_this.
  apply Z.ltb_ge in Hc.
  destruct (lookup w key); [contradiction| | |]; simpl; rewrite Hc; reflexivity.
Qed.

Lemma remove_found key w :
  lookup w key <> FUndefined -> 0 < _count (this w) ->
  remove key w =
    (Normal tt,
     with_this (mkInflight (_count (this w) - 1)
                  (if _count (this w) - 1 =? 0 then []
                   else assign_undefined (_inflights (this w)) key)
                  (Promise (this w))) w).
Proof.
  intros Hx Hc. unfold remove, bind, inflights_at, get_this.
  apply Z.ltb_lt in Hc.
  destruct (lookup w key); [contradiction| | |]; simpl; rewrite Hc; simpl;
    destruct (_count (this w) - 1 =? 0); reflexivity.
Qed.

Lemma tracked_found key w : tracked w key -> lookup w key <> FUndefined.
Proof. intros [x Hx]. rewrite (lookup_tracked _ _ _ Hx). discriminate. Qed.

Lemma remove_empty key w :
  tracked w key -> _count (this w) <= 0 ->
  remove key w = (Throw (InternalConsistencyError key (_count (this w))), w).
Proof. intros Ht. apply remove_found_empty, tracked_found, Ht. Qed.

Lemma remove_tracked key w :
  tracked w key -> 0 < _count (this w) ->
  remove key w =
    (Normal tt,
     with_this (mkInflight (_count (this w) - 1)
                  (if _count (this w) - 1 =? 0 then []
                   else set_prop (_inflights (this w)) key None)
                  (Promise (this w))) w).
Proof.
  intros Ht Hc. rewrite (remove_found key w (tracked_found _ _ Ht) Hc).
  destruct Ht as [x Hx].
  rewrite (assign_undefined_own _ _ (get_prop_has_own _ _ _ Hx)). reflexivity.
Qed.

(** Whatever happens, [remove] touches nothing but the registry. *)
Lemma remove_frame key w :
  heap (snd (remove key w)) = heap w /\ jobs (snd (remove key w)) = jobs w /\
  clock (snd (remove key w)) = clock w /\ reads (snd (remove key w)) = reads w.
Proof.
  unfold remove, bind, inflights_at, get_this.
  destruct (is_undefined (lookup w key)); simpl; [auto|].
  destruct (0 <? _count (this w)); simpl; [|auto].
  destruct (_count (this w) - 1 =? 0); simpl; auto.
Qed.

Lemma remove_written key w : written (snd (remove key w)) = written w.
Proof.
  unfold remove, bind, inflights_at, get_this.
  destruct (is_undefined (lookup w key)); simpl; [auto|].
  destruct (0 <? _count (this w)); simpl; [|auto].
  destruct (_count (this w) - 1 =? 0); simpl; auto.
Qed.

(** What [remove] leaves of the table: what was there, or nothing, or
    what was there with the key's property set to [undefined]. *)
Lemma remove_table key w :
  _inflights (this (snd (remove key w))) = _inflights (this w)
  \/ _inflights (this (snd (remove key w))) = []
  \/ _inflights (this (snd (remove key w))) = assign_undefined (_inflights (this w)) key.
Proof.
  unfold remove, bind, inflights_at, get_this.
  destruct (is_undefined (lookup w key)); simpl; [auto|].
  destruct (0 <? _count (this w)); simpl; [|auto].
  destruct (_count (this w) - 1 =? 0); simpl; auto.
Qed.

(** A plain key under which nothing is found stays so after a
    [remove]. *)
Lemma remove_keeps_untracked key k w :
  plain k -> untracked w k -> untracked (snd (remove key w)) k.
Proof.
  intros Hp Hk. unfold untracked, lookup in *. rewrite remove_written.
  rewrite lookup_in_plain in * by exact Hp.
  destruct (remove_table key w) as [-> | [-> | ->]]; [exact Hk | reflexivity |].
  unfold assign_undefined.
  destruct (negb (has_own (_inflights (this w)) key) && String.eqb key "__proto__");
    [exact Hk|].
  destruct (String.eqb_spec key k) as [->|Hne].
  - rewrite get_prop_set_prop_eq. reflexivity.
  - rewrite get_prop_set_prop_ne by exact Hne. exact Hk.
Qed.

(** ** The count invariant *)

Lemma consistent_count_pos o key :
  consistent o -> is_Some (get_prop (_inflights o) key) -> 0 < _count o.
Proof.
  intros [Hnd Hc] Hk. apply tracked_keys_spec in Hk; [|exact Hnd].
  rewrite Hc. destruct (tracked_keys (_inflights o)); [destruct Hk | simpl; lia].
Qed.

Lemma add_consistent key v now w :
  consistent (this w) -> consistent (this (snd (add key v now w))).
Proof.
  intros Hc.
  destruct (lookup w key) eqn:Hx.
  - destruct (add_untracked key v now w Hx) as (t & w1 & _ & ->). simpl.
    apply untracked_get_prop in Hx.
    destruct Hc as [Hnd Hc]. split; simpl.
    + apply NoDup_keys_set_prop, Hnd.
    + pose proof (tracked_set_prop (_inflights (this w)) key (Some (mkItem t t v))) as H.
      rewrite Hx in H. simpl in H. lia.
  - rewrite add_found by (rewrite Hx; discriminate). exact Hc.
  - rewrite add_found by (rewrite Hx; discriminate). exact Hc.
  - rewrite add_found by (rewrite Hx; discriminate). exact Hc.
Qed.

(** [remove] keeps the invariant when the key is tracked or nothing is
    found under it, as is the case of every plain key. *)
Lemma remove_consistent key w :
  tracked w key \/ untracked w key ->
  consistent (this w) -> consistent (this (snd (remove key w))).
Proof.
  intros [Ht|Hk] Hc.
  - pose proof (consistent_count_pos _ _ Hc Ht) as Hpos.
    rewrite remove_tracked by assumption. simpl.
    destruct Ht as [x Hx]. destruct Hc as [Hnd Hc].
    destruct (_count (this w) - 1 =? 0) eqn:E; split; simpl.
    + constructor.
    + apply Z.eqb_eq in E. lia.
    + apply NoDup_keys_set_prop, Hnd.
    + pose proof (tracked_set_prop (_inflights (this w)) key None) as H.
      rewrite Hx in H. simpl in H. lia.
  - rewrite remove_untracked by exact Hk. exact Hc.
Qed.

Lemma remove_plain_consistent key w :
  plain key -> consistent (this w) -> consistent (this (snd (remove key w))).
Proof. intros Hp. apply remove_consistent, plain_tracked_or_untracked, Hp. Qed.

(** After [remove] of a plain key, nothing is found under the key,
    whatever the completion. *)
Lemma remove_untracks key w :
  plain key -> consistent (this w) -> untracked (snd (remove key w)) key.
Proof.
  intros Hp Hc.
  destruct (plain_tracked_or_untracked key w Hp) as [Ht|Hk].
  - pose proof (consistent_count_pos _ _ Hc Ht) as Hpos.
    rewrite remove_tracked by assumption.
    apply plain_untracked; [exact Hp|]. simpl.
    destruct (_count (this w) - 1 =? 0); simpl; [reflexivity|].
    apply get_prop_set_prop_eq.
  - rewrite remove_untracked by exact Hk. exact Hk.
Qed.

(** ** Promises and the queue *)

Lemma settle_this p s w : this (settle p s w) = this w.
Proof.
  unfold settle. destruct (heap w !! p) as [obj|]; [|reflexivity].
  destruct (state obj); reflexivity.
Qed.

Lemma settle_written p s w : written (settle p s w) = written w.
Proof.
  unfold settle. destruct (heap w !! p) as [obj|]; [|reflexivity].
  destruct (state obj); reflexivity.
Qed.

Lemma settle_lookup p s w key : lookup (settle p s w) key = lookup w key.
Proof. apply lookup_same; [apply settle_this | apply settle_written]. Qed.

Lemma settle_jobs p s w : exists more, jobs (settle p s w) = jobs w ++ more.
Proof.
  unfold settle. destruct (heap w !! p) as [obj|].
  - destruct (state obj); simpl; eauto using app_nil_r.
  - exists []. symmetry. apply app_nil_r.
Qed.

Lemma sum_list_insert {A} (f : A -> nat) (l : list A) i x y :
  l !! i = Some x ->
  (sum_list (map f (<[i:=y]> l)) + f x = sum_list (map f l) + f y)%nat.
Proof.
  revert i. induction l as [|a l IH]; intros [|i]; simpl; try discriminate.
  - intros [= ->]. lia.
  - intros Hi. specialize (IH i Hi). lia.
Qed.

(** Settling moves recorded callbacks to the queue: none is lost, none
    is made. *)
Lemma settle_pending_work p s w : pending_work (settle p s w) = pending_work w.
Proof.
  unfold settle. destruct (heap w !! p) as [obj|] eqn:Hp; [|reflexivity].
  destruct (state obj); try reflexivity.
  unfold pending_work. simpl. rewrite length_app, length_map.
  pose proof (sum_list_insert (fun o => length (reactions o)) (heap w) p obj
                (mkPromise (made_by obj) (settled s) []) Hp) as H.
  simpl in H. lia.
Qed.

Lemma run_job_settles j w :
  exists s, run_job j w = settle (target j) s (snd (run_callback (callback j) w)).
Proof.
  unfold run_job. destruct (run_callback (callback j) w) as [[v|e] w']; simpl; eauto.
Qed.

Lemma run_callback_remove key w :
  snd (run_callback (RemoveKey key) w) = snd (remove key w).
Proof.
  unfold run_callback, bind. destruct (remove key w) as [[[]|e] w']; reflexivity.
Qed.

Lemma run_job_pending_work j w : pending_work (run_job j w) = pending_work w.
Proof.
  destruct (run_job_settles j w) as [s ->]. rewrite settle_pending_work.
  destruct (callback j) as [key]. rewrite run_callback_remove.
  unfold pending_work.
  destruct (remove_frame key w) as (-> & -> & _). reflexivity.
Qed.

(** The queue empties: each job run uses up one unit of pending work. *)
Lemma run_jobs_empties fuel w :
  (pending_work w <= fuel)%nat -> jobs (run_jobs fuel w) = [].
Proof.
  revert w. induction fuel as [|fuel IH]; intros w Hw; simpl.
  - unfold pending_work in Hw. destruct (jobs w); [reflexivity | simpl in Hw; lia].
  - destruct (jobs w) as [|j rest] eqn:Hj; [exact Hj|].
    apply IH. rewrite run_job_pending_work.
    unfold pending_work in *. rewrite Hj in Hw. simpl in *. lia.
Qed.

Lemma drain_empties w : jobs (drain w) = [].
Proof. apply run_jobs_empties. reflexivity. Qed.

Lemma run_job_consistent j w :
  plain (hook_key (callback j)) ->
  consistent (this w) -> consistent (this (run_job j w)).
Proof.
  intros Hp Hc. destruct (run_job_settles j w) as [s ->]. rewrite settle_this.
  destruct (callback j) as [key]. rewrite run_callback_remove.
  apply remove_plain_consistent; assumption.
Qed.

Lemma run_job_keeps_untracked j w k :
  plain k -> untracked w k -> untracked (run_job j w) k.
Proof.
  intros Hp Hk. destruct (run_job_settles j w) as [s ->].
  unfold untracked. rewrite settle_lookup.
  destruct (callback j) as [key]. rewrite (lookup_same (snd (remove key w))).
  - apply remove_keeps_untracked; assumption.
  - rewrite run_callback_remove. reflexivity.
  - rewrite run_callback_remove. reflexivity.
Qed.

Lemma run_job_untracks key arg d w :
  plain key -> consistent (this w) ->
  untracked (run_job (mkJob (RemoveKey key) arg d) w) key.
Proof.
  intros Hp Hc. destruct (run_job_settles (mkJob (RemoveKey key) arg d) w) as [s ->].
  unfold untracked. rewrite settle_lookup. cbn [callback].
  rewrite (lookup_same (snd (remove key w))).
  - apply remove_untracks; assumption.
  - rewrite run_callback_remove. reflexivity.
  - rewrite run_callback_remove. reflexivity.
Qed.

Lemma run_job_jobs j w : exists more, jobs (run_job j w) = jobs w ++ more.
Proof.
  destruct (run_job_settles j w) as [s ->].
  destruct (settle_jobs (target j) s (snd (run_callback (callback j) w))) as [more ->].
  destruct (callback j) as [key]. rewrite run_callback_remove.
  destruct (remove_frame key w) as (_ & -> & _). eauto.
Qed.

(** *** Plain hooks *)

Lemma plain_hooks_frame w w' :
  heap w' = heap w -> jobs w' = jobs w -> plain_hooks w -> plain_hooks w'.
Proof. unfold plain_hooks. intros -> ->. auto. Qed.

Lemma job_of_plain s r :
  plain (hook_key (onFulfilled r)) /\ plain (hook_key (onRejected r)) ->
  plain (hook_key (callback (job_of s r))).
Proof. intros [H1 H2]. destruct s; assumption. Qed.

Lemma settle_plain_hooks p s w : plain_hooks w -> plain_hooks (settle p s w).
Proof.
  intros [Hj Hh]. unfold settle.
  destruct (heap w !! p) as [obj|] eqn:Hp; [|split; assumption].
  destruct (state obj); try (split; assumption).
  split; simpl.
  - apply List.Forall_app. split; [exact Hj|].
    apply List.Forall_forall. intros j Hin.
    apply in_map_iff in Hin as (r & <- & Hr).
    apply job_of_plain.
    rewrite List.Forall_forall in Hh.
    assert (Hobj : In obj (heap w)) by (apply list_elem_of_In; eapply list_elem_of_lookup_2, Hp).
    specialize (Hh obj Hobj). rewrite List.Forall_forall in Hh. apply Hh, Hr.
  - apply List.Forall_forall. intros o Hin.
    apply list_elem_of_In, list_elem_of_lookup_1 in Hin as [i Hi].
    destruct (Nat.eq_dec i p) as [->|Hne].
    + rewrite list_lookup_insert_eq in Hi by (eapply lookup_lt_Some, Hp).
      injection Hi as <-. constructor.
    + rewrite list_lookup_insert_ne in Hi by congruence.
      rewrite List.Forall_forall in Hh. apply Hh.
      apply list_elem_of_In. eapply list_elem_of_lookup_2, Hi.
Qed.

Lemma run_job_plain_hooks j rest w :
  jobs w = j :: rest -> plain_hooks w -> plain_hooks (run_job j (with_jobs rest w)).
Proof.
  intros Hj [Hjobs Hheap]. rewrite Hj in Hjobs.
  destruct (run_job_settles j (with_jobs rest w)) as [s ->].
  apply settle_plain_hooks.
  destruct (callback j) as [key]. rewrite run_callback_remove.
  destruct (remove_frame key (with_jobs rest w)) as (Hh & Hjs & _).
  apply (plain_hooks_frame (with_jobs rest w)); [exact Hh | exact Hjs |].
  split; simpl; [|exact Hheap].
  apply List.Forall_inv_tail in Hjobs. exact Hjobs.
Qed.

(** With plain hooks only, once the hook of [key] is due, emptying the
    queue leaves nothing under [key]: the hook removes the entry, and
    the jobs behind it only remove entries. *)
Lemma run_jobs_fires key fuel w :
  plain key -> plain_hooks w ->
  (pending_work w <= fuel)%nat ->
  consistent (this w) ->
  untracked w key \/ (exists arg d, In (mkJob (RemoveKey key) arg d) (jobs w)) ->
  untracked (run_jobs fuel w) key /\ consistent (this (run_jobs fuel w)) /\
  plain_hooks (run_jobs fuel w).
Proof.
  intros Hp. revert w. induction fuel as [|fuel IH]; intros w Hph Hw Hc Hk; simpl.
  - split; [|split; assumption]. destruct Hk as [Hk|(arg & d & Hin)]; [exact Hk|].
    unfold pending_work in Hw. destruct (jobs w); [destruct Hin | simpl in Hw; lia].
  - destruct (jobs w) as [|j rest] eqn:Hj.
    + split; [|split; assumption]. destruct Hk as [Hk|(arg & d & [])]. exact Hk.
    + assert (Hc' : consistent (this (with_jobs rest w))) by exact Hc.
      assert (Hpj : plain (hook_key (callback j))).
      { destruct Hph as [Hjobs _]. rewrite Hj in Hjobs.
        apply List.Forall_inv in Hjobs. exact Hjobs. }
      apply IH.
      * apply run_job_plain_hooks; assumption.
      * rewrite run_job_pending_work.
        unfold pending_work in *. rewrite Hj in Hw. simpl in *. lia.
      * apply run_job_consistent; assumption.
      * destruct Hk as [Hk|(arg & d & [->|Hin])].
        -- left. apply run_job_keeps_untracked; [exact Hp | exact Hk].
        -- left. apply run_job_untracks; assumption.
        -- right. exists arg, d.
           destruct (run_job_jobs j (with_jobs rest w)) as [more ->].
           apply in_or_app. left. exact Hin.
Qed.

(** Settling the promise makes an armed hook due. *)
Lemma settle_makes_due key p s w :
  hook_armed key p w ->
  exists arg d, In (mkJob (RemoveKey key) arg d) (jobs (settle p s w)).
Proof.
  intros [(obj & d & Hp & Hst & Hin)|(arg & d & Hin)].
  - unfold settle. rewrite Hp, Hst. simpl.
    exists (argument (job_of s (mkReaction (RemoveKey key) (RemoveKey key) d))), d.
    apply in_or_app. right.
    apply in_map_iff. exists (mkReaction (RemoveKey key) (RemoveKey key) d).
    split; [destruct s; reflexivity | exact Hin].
  - exists arg, d. destruct (settle_jobs p s w) as [more ->].
    apply in_or_app. left. exact Hin.
Qed.

(** Settlement, then the queue: the entry is gone. *)
Lemma settle_drain_untracks key p s w :
  plain key -> plain_hooks w ->
  consistent (this w) -> hook_armed key p w ->
  untracked (drain (settle p s w)) key /\
  consistent (this (drain (settle p s w))) /\
  jobs (drain (settle p s w)) = [].
Proof.
  intros Hp Hph Hc Ha.
  destruct (run_jobs_fires key (pending_work (settle p s w)) (settle p s w))
    as (H1 & H2 & _).
  - exact Hp.
  - apply settle_plain_hooks, Hph.
  - reflexivity.
  - rewrite settle_this. exact Hc.
  - right. apply settle_makes_due, Ha.
  - split; [exact H1|]. split; [exact H2 | apply drain_empties].
Qed.

(** Attaching the hook to a promise of the heap. *)
Lemma then_attaches key p w :
  is_Some (heap w !! p) ->
  exists w',
    then_ (VPromise p) (RemoveKey key) (RemoveKey key) w
      = (Normal (VPromise (length (heap w))), w') /\
    this w' = this w /\ written w' = written w /\ hook_armed key p w' /\
    (plain key -> plain_hooks w -> plain_hooks w').
Proof.
  intros [obj Hp]. unfold then_. rewrite Hp.
  assert (Hobj : In obj (heap w)) by (apply list_elem_of_In; eapply list_elem_of_lookup_2, Hp).
  destruct (state obj) eqn:Hst; eexists; (split; [reflexivity|]);
    (split; [reflexivity|]); (split; [reflexivity|]); split.
  - left. eexists _, (length (heap w)). simpl. split; [|split].
    + apply list_lookup_insert_eq. rewrite length_app.
      apply lookup_lt_Some in Hp. lia.
    + reflexivity.
    + simpl. apply in_or_app. right. left. reflexivity.
  - intros Hk [Hj Hh]. split; simpl; [exact Hj|].
    apply List.Forall_forall. intros o Hin.
    apply list_elem_of_In, list_elem_of_lookup_1 in Hin as [i Hi].
    destruct (Nat.eq_dec i p) as [->|Hne].
    + rewrite list_lookup_insert_eq in Hi
        by (rewrite length_app; apply lookup_lt_Some in Hp; lia).
      injection Hi as <-. simpl. apply List.Forall_app. split.
      * rewrite List.Forall_forall in Hh. apply Hh, Hobj.
      * constructor; [split; exact Hk | constructor].
    + rewrite list_lookup_insert_ne in Hi by congruence.
      apply list_elem_of_lookup_2, list_elem_of_In, in_app_or in Hi as [Hin|[<-|[]]].
      * rewrite List.Forall_forall in Hh. apply Hh, Hin.
      * constructor.
  - right. exists v, (length (heap w)). simpl. apply in_or_app. right. left. reflexivity.
  - intros Hk [Hj Hh]. split; simpl.
    + apply List.Forall_app. split; [exact Hj|]. constructor; [exact Hk | constructor].
    + apply List.Forall_app. split; [exact Hh|]. constructor; constructor.
  - right. exists reason, (length (heap w)). simpl. apply in_or_app. right. left. reflexivity.
  - intros Hk [Hj Hh]. split; simpl.
    + apply List.Forall_app. split; [exact Hj|]. constructor; [exact Hk | constructor].
    + apply List.Forall_app. split; [exact Hh|]. constructor; constructor.
Qed.

(** ** [promise] *)

Ltac run_monad :=
  cbv beta iota zeta delta
    [Ts.promise Js.promise bind inflights_at get_this try_catch assert ret throw
     reject alloc].

(** A factory that returns a promise of the heap, on a key under which
    nothing is found: the promise is registered, the hook attached, and
    the factory's own promise returned. *)
Lemma promise_in_registers impl key f p w wf :
  untracked w key -> f w = (Normal (VPromise p), wf) ->
  is_Some (heap wf !! p) -> untracked wf key ->
  exists x w1,
    promise_in impl key f w = (Normal (VPromise p), w1) /\
    get_prop (_inflights (this w1)) key = Some x /\ value x = VPromise p /\
    hook_armed key p w1 /\
    _count (this w1) = _count (this wf) + 1 /\
    (consistent (this wf) -> consistent (this w1)) /\
    (plain key -> plain_hooks wf -> plain_hooks w1).
Proof.
  intros Hk Hf Hp Hkf.
  destruct (add_untracked key (VPromise p) None wf Hkf) as (t & w1 & Hnow & Hadd).
  destruct (now_or_Date_now_frame None wf) as (t' & w1' & Hnow' & Hthis & Hheap & Hjobs & _).
  rewrite Hnow in Hnow'. injection Hnow' as <- <-.
  set (wa := with_this _ w1) in Hadd.
  destruct (then_attaches key p wa) as (w2 & Hthen & Hthis2 & _ & Harmed & Hplain).
  { simpl. rewrite Hheap. exact Hp. }
  exists (mkItem t t (VPromise p)), w2.
  split; [|split; [|split; [|split; [|split; [|split]]]]].
  - unfold untracked in Hk.
    destruct impl; simpl; run_monad; rewrite Hk; cbn [found_truthy]; run_monad;
      rewrite Hf; simpl; run_monad; rewrite Hadd, Hthen; reflexivity.
  - rewrite Hthis2. simpl. apply get_prop_set_prop_eq.
  - reflexivity.
  - exact Harmed.
  - rewrite Hthis2. reflexivity.
  - intros Hc. rewrite Hthis2.
    pose proof (add_consistent key (VPromise p) None wf Hc) as H.
    rewrite Hadd in H. exact H.
  - intros Hpk Hph. apply Hplain; [exact Hpk|].
    apply (plain_hooks_frame wf); [exact Hheap | exact Hjobs | exact Hph].
Qed.

Lemma get_tracked key x w :
  get_prop (_inflights (this w)) key = Some x -> get key w = (Normal (value x), w).
Proof.
  intros Hk. unfold get, bind, inflights_at, ret.
  rewrite (lookup_tracked _ _ _ Hk). reflexivity.
Qed.

Lemma get_untracked key w :
  untracked w key -> get key w = (Normal VUndefined, w).
Proof. intros Hk. unfold get, bind, inflights_at, ret. rewrite Hk. reflexivity. Qed.

Lemma promise_in_tracked impl key x factory w :
  get_prop (_inflights (this w)) key = Some x ->
  promise_in impl key factory w = (Normal (value x), w).
Proof.
  intros Hk. destruct impl; simpl; run_monad;
    rewrite (lookup_tracked _ _ _ Hk); reflexivity.
Qed.

(** When what is found under the key is truthy (an item, or something
    inherited), [promise] returns its [value] and runs nothing. *)
Lemma promise_in_truthy impl key factory w :
  found_truthy (lookup w key) = true ->
  promise_in impl key factory w = (Normal (found_value (lookup w key)), w).
Proof. intros H. destruct impl; simpl; run_monad; rewrite H; reflexivity. Qed.

(** C1. When an entry for the key is tracked, [promise] returns the
    stored value itself (for a promise: the same address) and leaves the
    world as it was, whatever the factory is: the factory is not run.
    So any number of successive calls for the key, each with a factory
    of its own, all get the same stored promise. *)
Theorem promise_returns_tracked_future key x w :
  get_prop (_inflights (this w)) key = Some x ->
  (forall impl factory,
      promise_in impl key factory w = (Normal (value x), w)) /\
  (forall impl factories,
      run (call_in impl) (map (OpPromise key) factories) w
      = (map (fun _ => Normal (value x)) factories, w)).
Proof.
  intros Hk. split.
  - intros impl factory. apply promise_in_tracked, Hk.
  - intros impl factories. induction factories as [|f fs IH]; [reflexivity|].
    cbn [map run].
    change (call_in impl (OpPromise key f) w) with (promise_in impl key f w).
    rewrite (promise_in_tracked impl key x f w Hk), IH. reflexivity.
Qed.

Lemma promise_returns_tracked_future_witness :
  get_prop (_inflights (this tracked_world)) "k"
    = Some (mkItem 1700000000000 1700000000000 (VPromise 0)) /\
  promise_in SrcIndexTs "k" throwing_factory tracked_world
    = (Normal (VPromise 0), tracked_world) /\
  run (call_in LibIndexJs)
      (map (OpPromise "k") [pending_factory; number_factory]) tracked_world
    = ([Normal (VPromise 0); Normal (VPromise 0)], tracked_world).
Proof.
  split; [reflexivity|].
  split.
  - apply (proj1 (promise_returns_tracked_future "k"
             (mkItem 1700000000000 1700000000000 (VPromise 0)) tracked_world
             eq_refl)).
  - apply (proj2 (promise_returns_tracked_future "k"
             (mkItem 1700000000000 1700000000000 (VPromise 0)) tracked_world
             eq_refl) LibIndexJs [pending_factory; number_factory]).
Defined.


Lemma pending_factory_plain_hooks :
  plain_hooks (snd (pending_factory fresh_world)).
Proof. split; simpl; repeat constructor. Qed.



(** A factory that throws: the catch clause makes the rejected promise. *)
Lemma promise_in_catches impl key f e w wf :
  found_truthy (lookup w key) = false -> f w = (Throw e, wf) ->
  promise_in impl key f w
  = (Normal (VPromise (length (heap wf))),
     with_heap (heap wf ++ [mkPromise (Promise (this wf)) (Rejected e) []]) wf).
Proof.
  intros Hk Hf. destruct impl; simpl; run_monad; rewrite Hk; run_monad; rewrite Hf;
    reflexivity.
Qed.

Lemma untracked_falsy key w : untracked w key -> found_truthy (lookup w key) = false.
Proof. intros ->. reflexivity. Qed.

Lemma rejected_with_new h e w :
  rejected_with (with_heap (heap w ++ [mkPromise h (Rejected e) []]) w)
                (length (heap w)) e.
Proof.
  exists (mkPromise h (Rejected e) []). split; [|reflexivity]. simpl.
  rewrite lookup_app_r by lia. rewrite Nat.sub_diag. reflexivity.
Qed.

(** Whatever the factory does, [promise] returns. *)
Lemma promise_in_returns impl key f w :
  exists v w', promise_in impl key f w = (Normal v, w').
Proof.
  destruct impl; simpl; run_monad;
    (destruct (found_truthy (lookup w key)); [eauto|]);
    (destruct (f w) as [[v|e] wf]; [|eauto]);
    match goal with |- context [if ?c then _ else _] => destruct c end; [|eauto | |eauto];
    (destruct (add key v None wf) as [[q|e] wa]; [|eauto]);
    (destruct (then_ q (RemoveKey key) (RemoveKey key) wa) as [[r|e] wt]; eauto).
Qed.

(** X19.  [promise] never throws, whatever the factory does.  When
    nothing is found under the key and the factory throws, [promise] returns a new
    promise that is already rejected with the thrown value, and it
    leaves the registry as the factory left it, so that [get] gives
    [undefined] for the key right after the call. *)
Theorem promise_factory_throws :
  (forall impl key f w,
      exists v w', promise_in impl key f w = (Normal v, w')) /\
  (forall impl key f e w wf,
      untracked w key ->
      f w = (Throw e, wf) ->
      untracked wf key ->
      exists p w1,
        promise_in impl key f w = (Normal (VPromise p), w1) /\
        rejected_with w1 p e /\
        heap wf !! p = None /\
        this w1 = this wf /\
        get key w1 = (Normal VUndefined, w1)).
Proof.
  split; [exact promise_in_returns|].
  intros impl key f e w wf Hk Hf Hkf. eexists _, _.
  split; [apply promise_in_catches; [apply untracked_falsy, Hk | eassumption]|].
  split; [apply rejected_with_new|].
  split; [apply lookup_ge_None; lia|].
  split; [reflexivity|].
  apply get_untracked. exact Hkf.
Qed.

Lemma promise_factory_throws_witness :
  untracked fresh_world "k" /\
  throwing_factory fresh_world = (Throw (VError "Error" "boom"), fresh_world) /\
  exists p w1,
    promise_in SrcIndexTs "k" throwing_factory fresh_world = (Normal (VPromise p), w1) /\
    rejected_with w1 p (VError "Error" "boom") /\
    heap fresh_world !! p = None /\
    this w1 = this fresh_world /\
    get "k" w1 = (Normal VUndefined, w1).
Proof.
  split; [reflexivity|]. split; [reflexivity|].
  apply (proj2 promise_factory_throws SrcIndexTs "k" throwing_factory
           (VError "Error" "boom") fresh_world fresh_world);
    reflexivity.
Defined.

(** C3 (the failing input).  On a new registry,
    [promise("toString", () => { throw new Error("boom"); })] finds the
    function [Object.prototype.toString] under the key, takes it for an
    entry and returns its [value], [undefined]: the factory is not run,
    no promise is made, rejected or other, and the world is as it was.
    The same happens in both files, and for ["constructor"]. *)
Theorem promise_skips_throwing_factory_on_inherited_name :
  run call_ts [OpPromise "toString" throwing_factory] fresh_world
  = ([Normal VUndefined], fresh_world) /\
  run call_js [OpPromise "toString" throwing_factory] fresh_world
  = ([Normal VUndefined], fresh_world) /\
  run call_ts [OpPromise "constructor" throwing_factory] fresh_world
  = ([Normal VUndefined], fresh_world) /\
  heap fresh_world = [].
Proof. repeat split; reflexivity. Qed.

(** X20.  In [src/index.ts], when nothing is found under the key and
    the factory returns a value that has no callable [then], [promise]
    returns a new promise that is already rejected with an assertion
    error whose message names the key and says that the factory didn't
    return a promise; the registry is left as the factory left it, with
    no entry for the key. *)
Theorem promise_factory_returns_no_promise key f v w wf :
  untracked w key ->
  f w = (Normal v, wf) ->
  typeof_then_is_function v = false ->
  untracked wf key ->
  exists p w1,
    Ts.promise key f w = (Normal (VPromise p), w1) /\
    rejected_with w1 p
      (VError "AssertionError"
         ("xflight: promiseFactory for key " +:+ key +:+ " didn't return a promise")) /\
    heap wf !! p = None /\
    this w1 = this wf /\
    get key w1 = (Normal VUndefined, w1).
Proof.
  intros Hk Hf Hv Hkf.
  exists (length (heap wf)),
    (with_heap (heap wf ++ [mkPromise (Promise (this wf))
       (Rejected (InvalidFactoryResult key)) []]) wf).
  split.
  - apply untracked_falsy in Hk. run_monad. rewrite Hk. run_monad.
    rewrite Hf, Hv, andb_false_r. reflexivity.
  - split; [apply rejected_with_new|].
    split; [apply lookup_ge_None; lia|].
    split; [reflexivity|].
    apply get_untracked. exact Hkf.
Qed.

Lemma promise_factory_returns_no_promise_witness :
  untracked fresh_world "k" /\
  number_factory fresh_world = (Normal (VNumber 42), fresh_world) /\
  exists p w1,
    Ts.promise "k" number_factory fresh_world = (Normal (VPromise p), w1) /\
    rejected_with w1 p
      (VError "AssertionError"
         "xflight: promiseFactory for key k didn't return a promise") /\
    heap fresh_world !! p = None /\
    this w1 = this fresh_world /\
    get "k" w1 = (Normal VUndefined, w1).
Proof.
  split; [reflexivity|]. split; [reflexivity|].
  apply (promise_factory_returns_no_promise "k" number_factory (VNumber 42)
           fresh_world fresh_world);
    reflexivity.
Defined.

(** C4 (the failing input).  On a new registry,
    [promise("constructor", () => 42)] finds the function [Object] under
    the key and returns its [value], [undefined]: the factory is not
    run, and no rejected promise is made (the heap stays empty), so no
    error names the key.  For the key ["k"] the same call returns a
    promise rejected with the assertion error. *)
Theorem promise_returns_undefined_on_inherited_name :
  run call_ts [OpPromise "constructor" number_factory] fresh_world
  = ([Normal VUndefined], fresh_world) /\
  heap fresh_world = [] /\
  fst (run call_ts [OpPromise "k" number_factory] fresh_world) = [Normal (VPromise 0)] /\
  heap (snd (run call_ts [OpPromise "k" number_factory] fresh_world))
  = [mkPromise GlobalPromise (Rejected (InvalidFactoryResult "k")) []].
Proof. repeat split; reflexivity. Qed.

(** ** The counter *)

Lemma reset_each_this values now w :
  this (snd (Ts.reset_each values now w)) = this w.
Proof.
  revert w. induction values as [|[k [x|]] rest IH]; intros w; simpl; [reflexivity| |].
  - unfold bind.
    destruct (now_or_Date_now_frame now w) as (t & w1 & -> & Hthis & _).
    specialize (IH w1). destruct (Ts.reset_each rest now w1) as [[r|e] w2];
      simpl in *; congruence.
  - unfold bind. specialize (IH w).
    destruct (Ts.reset_each rest now w) as [[r|e] w2]; simpl in *; congruence.
Qed.

Lemma reset_item_count key x now w :
  _count (this (snd (reset_item key x now w))) = _count (this w).
Proof.
  unfold reset_item, bind, get_this, put_this.
  destruct (now_or_Date_now_frame now w) as (t & w1 & -> & Hthis & _).
  simpl. rewrite Hthis. reflexivity.
Qed.

(** Writing a check time on something inherited leaves the registry as
    it is. *)
Lemma assign_lastXTime_inherited_this key x now w :
  (forall i, x <> FItem i) ->
  this (snd (assign_lastXTime key x now w)) = this w.
Proof.
  intros Hx. destruct x as [|i|b|n]; simpl; [reflexivity | destruct (Hx i); reflexivity | |];
    unfold bind; destruct (now_or_Date_now_frame now w) as (t & w1 & -> & Hthis & _);
    exact Hthis.
Qed.

Lemma reset_key_count key now w :
  _count (this (snd (reset_key key now w))) = _count (this w).
Proof.
  unfold reset_key, bind, inflights_at.
  destruct (found_truthy (lookup w key)); [|reflexivity].
  destruct (lookup w key) as [|i|b|n] eqn:Hx.
  - reflexivity.
  - apply reset_item_count.
  - rewrite assign_lastXTime_inherited_this by discriminate. reflexivity.
  - rewrite assign_lastXTime_inherited_this by discriminate. reflexivity.
Qed.

Lemma resetCheckTime_looked_up impl key k now w :
  looked_up impl key = Some k ->
  resetCheckTime_in impl key now w = (reset_key k now ;;; ret VInflight) w.
Proof.
  destruct impl; unfold looked_up, resetCheckTime_in.
  - destruct key as [k0|]; [|discriminate].
    unfold Ts.resetCheckTime. destruct (truthy (VString k0)); [|discriminate].
    intros [= ->]. reflexivity.
  - intros [= <-]. unfold Js.resetCheckTime, reset_key, bind, inflights_at.
    destruct (found_truthy (lookup w (Js.to_property_key key))); [|reflexivity].
    destruct (assign_lastXTime (Js.to_property_key key)
                (lookup w (Js.to_property_key key)) now w) as [[[]|e] w'];
      reflexivity.
Qed.

(** Without a key to look up, [src/index.ts] runs the loop. *)
Lemma resetCheckTime_not_looked_up impl key now w :
  looked_up impl key = None ->
  resetCheckTime_in impl key now w = Ts.resetCheckTime None now w.
Proof.
  destruct impl; [|discriminate]. unfold looked_up, resetCheckTime_in.
  destruct key as [k|]; [|reflexivity].
  unfold Ts.resetCheckTime. destruct (truthy (VString k)); [discriminate | reflexivity].
Qed.

Lemma resetCheckTime_all_count now w :
  _count (this (snd (Ts.resetCheckTime None now w))) = _count (this w).
Proof.
  unfold Ts.resetCheckTime, bind, get_this, put_this, ret.
  pose proof (reset_each_this (_inflights (this w)) now w) as H.
  destruct (Ts.reset_each (_inflights (this w)) now w) as [[r|e] w2];
    simpl in *; congruence.
Qed.

Lemma resetCheckTime_count impl key now w :
  _count (this (snd (resetCheckTime_in impl key now w))) = _count (this w).
Proof.
  destruct (looked_up impl key) as [k|] eqn:Hlook.
  - rewrite (resetCheckTime_looked_up impl key k now w Hlook).
    pose proof (reset_key_count k now w) as H. unfold bind.
    destruct (reset_key k now w) as [[[]|e] w']; exact H.
  - rewrite (resetCheckTime_not_looked_up impl key now w Hlook).
    apply resetCheckTime_all_count.
Qed.

(** A query does not throw, and changes nothing but the number of
    times the clock was read, which it reads at most once. *)
Lemma query_frame impl op w :
  is_query op = true ->
  exists v w',
    call_in impl op w = (Normal v, w') /\
    this w' = this w /\ heap w' = heap w /\ jobs w' = jobs w /\
    clock w' = clock w /\ (reads w <= reads w' <= S (reads w))%nat /\
    written w' = written w.
Proof.
  destruct op as [| | | | | |key|key now|key now|key|key now|key now|];
    try discriminate; intros _;
    unfold call_in, call, elapseTime, elapseCheckTime; unfold time, lastCheckTime,
      get, isEmpty, count, getStartTime, getCheckTime, get_lastXTime, bind,
      inflights_at, get_this, ret;
    try (eexists _, _; split; [reflexivity|]; repeat split; lia).
  all: destruct (found_truthy (lookup w key));
    [destruct now as [n|]; [simpl; destruct (n =? 0)|]|];
    simpl; eexists _, _; (split; [reflexivity|]); simpl; repeat split; lia.
Qed.

Lemma query_count impl op w :
  match op with
  | OpPromise _ _ | OpAdd _ _ _ | OpRemove _ => True
  | _ => _count (this (snd (call_in impl op w))) = _count (this w)
  end.
Proof.
  destruct op as [| | | | | |key|key now|key now|key|key now|key now|key now];
    try exact I.
  10: { unfold call_in, call. apply resetCheckTime_count. }
  all: match goal with
       | |- context [call_in ?i ?op ?w0] =>
           destruct (query_frame i op w0 eq_refl) as (v & w' & -> & Hthis & _)
       end; simpl; rewrite Hthis; reflexivity.
Qed.

(** X21.  How the counter moves.  [isEmpty] is true exactly when [count] is
    0; [add] takes the counter one up when it returns and [remove] one
    down when it returns; a call that throws, and every query or
    [resetCheckTime], leaves it as it was.  This holds for every key. *)
Theorem counter_moves :
  (forall w, isEmpty w = (Normal true, w) <-> count w = (Normal 0, w)) /\
  (forall w key value now,
      match add key value now w with
      | (Normal _, w') => _count (this w') = _count (this w) + 1
      | (Throw _, w') => _count (this w') = _count (this w)
      end) /\
  (forall w key,
      match remove key w with
      | (Normal _, w') => _count (this w') = _count (this w) - 1
      | (Throw _, w') => _count (this w') = _count (this w)
      end) /\
  (forall impl op w,
      match op with
      | OpPromise _ _ | OpAdd _ _ _ | OpRemove _ => True
      | _ => _count (this (snd (call_in impl op w))) = _count (this w)
      end).
Proof.
  split; [|split; [|split]].
  - intros w. unfold isEmpty, count, bind, get_this, ret. split.
    + intros [= H]. apply Z.eqb_eq in H. rewrite H. reflexivity.
    + intros [= H]. rewrite H. reflexivity.
  - intros w key v now.
    destruct (lookup w key) eqn:Hx.
    + destruct (add_untracked key v now w Hx) as (t & w1 & _ & ->). reflexivity.
    + rewrite add_found by (rewrite Hx; discriminate). reflexivity.
    + rewrite add_found by (rewrite Hx; discriminate). reflexivity.
    + rewrite add_found by (rewrite Hx; discriminate). reflexivity.
  - intros w key.
    destruct (lookup w key) eqn:Hx.
    + rewrite remove_untracked by exact Hx. reflexivity.
    + destruct (Z.lt_ge_cases 0 (_count (this w))) as [Hpos|Hle].
      * rewrite remove_found by (rewrite ?Hx; first [discriminate | assumption]).
        reflexivity.
      * rewrite remove_found_empty by (rewrite ?Hx; first [discriminate | assumption]).
        reflexivity.
    + destruct (Z.lt_ge_cases 0 (_count (this w))) as [Hpos|Hle].
      * rewrite remove_found by (rewrite ?Hx; first [discriminate | assumption]).
        reflexivity.
      * rewrite remove_found_empty by (rewrite ?Hx; first [discriminate | assumption]).
        reflexivity.
    + destruct (Z.lt_ge_cases 0 (_count (this w))) as [Hpos|Hle].
      * rewrite remove_found by (rewrite ?Hx; first [discriminate | assumption]).
        reflexivity.
      * rewrite remove_found_empty by (rewrite ?Hx; first [discriminate | assumption]).
        reflexivity.
  - apply query_count.
Qed.

(** C5 (the failing input).  On a new registry: [add("a", ...)],
    [add("b", ...)], [remove("toString")].  No entry was ever added for
    ["toString"], yet [remove] finds the inherited function under the
    key, passes both assertions and takes the counter down: [count] is 1
    while two keys hold an entry.  A following [remove("a")] takes the
    counter to 0, which resets the table: [isEmpty] is true and the
    entry of ["b"], never removed, is gone. *)
Theorem count_broken_by_inherited_name :
  fst (run call_ts [OpAdd "a" (VString "A") None; OpAdd "b" (VString "B") None;
                    OpRemove "toString"; OpCount; OpGet "a"; OpGet "b";
                    OpRemove "a"; OpCount; OpIsEmpty; OpGet "b"] fresh_world)
  = [Normal (VString "A"); Normal (VString "B");
     Normal VUndefined; Normal (VNumber 1); Normal (VString "A"); Normal (VString "B");
     Normal VUndefined; Normal (VNumber 0); Normal (VBoolean true); Normal VUndefined] /\
  tracked_keys (_inflights (this (snd
    (run call_ts [OpAdd "a" (VString "A") None; OpAdd "b" (VString "B") None;
                  OpRemove "toString"] fresh_world))))
  = ["a"; "b"]%string /\
  _count (this (snd
    (run call_js [OpAdd "a" (VString "A") None; OpAdd "b" (VString "B") None;
                  OpRemove "toString"] fresh_world))) = 1.
Proof. repeat split; reflexivity. Qed.

(** X22.  What [remove] does, for every key.  It throws the missing-key
    assertion error when nothing is found under the key.  When
    something is found there, it throws the list-is-empty assertion
    error if the counter is zero (or below); otherwise it returns, with
    the counter one down, and the table emptied when the counter has
    reached zero, or else the key's property set to [undefined] and the
    rest of the table as it was.  A throwing call changes nothing.
    What is found may be an entry, or a member of [Object.prototype]
    for which there is no entry. *)
Theorem remove_cases key w :
  (untracked w key ->
   remove key w = (Throw (MissingKeyError key), w)) /\
  (lookup w key <> FUndefined -> _count (this w) <= 0 ->
   remove key w = (Throw (InternalConsistencyError key (_count (this w))), w)) /\
  (lookup w key <> FUndefined -> 0 < _count (this w) ->
   exists w',
     remove key w = (Normal tt, w') /\
     _count (this w') = _count (this w) - 1 /\
     (_count (this w') = 0 -> _inflights (this w') = []) /\
     (_count (this w') <> 0 ->
      _inflights (this w') = assign_undefined (_inflights (this w)) key /\
      forall k, k <> key ->
        get_prop (_inflights (this w')) k = get_prop (_inflights (this w)) k) /\
     get_prop (_inflights (this w')) key = None /\
     Promise (this w') = Promise (this w) /\
     heap w' = heap w /\ jobs w' = jobs w /\ written w' = written w).
Proof.
  split; [apply remove_untracked|]. split; [apply remove_found_empty|].
  intros Ht Hpos. eexists. split; [apply remove_found; assumption|].
  simpl. split; [reflexivity|].
  destruct (Z.eqb_spec (_count (this w) - 1) 0) as [E|E].
  - split; [intros _; reflexivity|].
    split; [intros H0; contradiction|].
    split; [reflexivity|]. auto.
  - split; [intros H0; contradiction|].
    assert (Hothers : forall k, k <> key ->
              get_prop (assign_undefined (_inflights (this w)) key) k
              = get_prop (_inflights (this w)) k).
    { intros k Hk. unfold assign_undefined.
      destruct (negb (has_own (_inflights (this w)) key) && String.eqb key "__proto__");
        [reflexivity|].
      apply get_prop_set_prop_ne. congruence. }
    split; [intros _; split; [reflexivity | exact Hothers]|].
    split; [|auto].
    unfold assign_undefined.
    destruct (has_own (_inflights (this w)) key) eqn:Hown; simpl.
    + apply get_prop_set_prop_eq.
    + destruct (String.eqb key "__proto__");
        [apply has_own_false, Hown | apply get_prop_set_prop_eq].
Qed.

(** C7 (the failing inputs).  On a new registry no entry exists for
    ["hasOwnProperty"], yet [remove("hasOwnProperty")] does not throw
    the missing-key error: it finds the inherited function, passes the
    first assertion and throws the list-is-empty error.  With two
    entries tracked, [remove("toString")] throws nothing at all and
    takes the counter from 2 to 1, both entries staying. *)
Theorem remove_passes_on_inherited_name :
  get "hasOwnProperty" fresh_world = (Normal VUndefined, fresh_world) /\
  run call_ts [OpRemove "hasOwnProperty"] fresh_world
  = ([Throw (VError "AssertionError"
        "xflight: removing item hasOwnProperty but list is empty - count 0")],
     fresh_world) /\
  run call_ts [OpRemove "nope"] fresh_world
  = ([Throw (MissingKeyError "nope")], fresh_world) /\
  fst (run call_ts [OpCount; OpGet "toString"; OpRemove "toString"; OpCount;
                    OpGet "foo"; OpGet "test"] two_tracked)
  = [Normal (VNumber 2); Normal VUndefined; Normal VUndefined; Normal (VNumber 1);
     Normal (VString "bar"); Normal (VString "hello")].
Proof. repeat split; reflexivity. Qed.

(** ** Times *)

(** What [now || Date.now()] gives when [now] stands or is omitted. *)
Lemma now_or_Date_now_stands now w :
  stands now ->
  exists w1,
    now_or_Date_now now w = (Normal (now_or_clock now w), w1) /\
    this w1 = this w /\ heap w1 = heap w /\ jobs w1 = jobs w /\
    clock w1 = clock w /\
    reads w1 = match now with Some _ => reads w | None => S (reads w) end.
Proof.
  destruct now as [n|]; simpl; intros Hn.
  - apply Z.eqb_neq in Hn. rewrite Hn. eexists. split; [reflexivity|]. auto.
  - eexists. split; [reflexivity|]. simpl. auto.
Qed.

(** [add] on a key under which nothing is found, with a [now] that
    stands or none: the item starts and was last checked at that
    time. *)
Lemma add_registers key v now w :
  untracked w key -> stands now ->
  exists w',
    add key v now w = (Normal v, w') /\
    get_prop (_inflights (this w')) key
      = Some (mkItem (now_or_clock now w) (now_or_clock now w) v) /\
    _count (this w') = _count (this w) + 1.
Proof.
  intros Hk Hnow.
  destruct (add_untracked key v now w Hk) as (t & w1 & Ht & ->).
  destruct (now_or_Date_now_stands now w Hnow) as (w1' & Ht' & _).
  rewrite Ht in Ht'. injection Ht' as -> ->.
  eexists. split; [reflexivity|]. simpl.
  split; [apply get_prop_set_prop_eq | reflexivity].
Qed.

Lemma time_untracked key now w :
  untracked w key -> time key now w = (Normal (VNumber (-1)), w).
Proof. intros Hk. unfold time, bind, inflights_at. rewrite Hk. reflexivity. Qed.

Lemma lastCheckTime_untracked key now w :
  untracked w key -> lastCheckTime key now w = (Normal (VNumber (-1)), w).
Proof. intros Hk. unfold lastCheckTime, bind, inflights_at. rewrite Hk. reflexivity. Qed.

(** The elapsed time is the double nearest to the difference: the
    difference itself when that is a safe integer. *)
Lemma time_tracked key x n w :
  get_prop (_inflights (this w)) key = Some x -> n <> 0 ->
  time key (Some n) w = (Normal (VNumber (to_double (n - start x))), w).
Proof.
  intros Hk Hn. unfold time, bind, inflights_at.
  rewrite (lookup_tracked _ _ _ Hk). simpl.
  apply Z.eqb_neq in Hn. rewrite Hn. reflexivity.
Qed.

Lemma lastCheckTime_tracked key x n w :
  get_prop (_inflights (this w)) key = Some x -> n <> 0 ->
  lastCheckTime key (Some n) w = (Normal (VNumber (to_double (n - lastXTime x))), w).
Proof.
  intros Hk Hn. unfold lastCheckTime, bind, inflights_at.
  rewrite (lookup_tracked _ _ _ Hk). simpl.
  apply Z.eqb_neq in Hn. rewrite Hn. reflexivity.
Qed.

(** The elapsed time of the tests: five milliseconds after a start five
    milliseconds before [now], when neither number is zero. *)
Lemma elapsed_time_after_add key v now w :
  untracked w key -> now - 5 <> 0 -> now <> 0 ->
  exists w',
    add key v (Some (now - 5)) w = (Normal v, w') /\
    time key (Some now) w' = (Normal (VNumber 5), w') /\
    elapseTime key (Some now) w' = (Normal (VNumber 5), w').
Proof.
  intros Hk H5 Hn.
  destruct (add_registers key v (Some (now - 5)) w Hk H5) as (w' & Hadd & Hget & _).
  exists w'. split; [exact Hadd|].
  unfold elapseTime. rewrite (time_tracked key _ now w' Hget Hn). simpl.
  replace (now - (now - 5)) with 5 by lia. auto.
Qed.

(** C6 (the failing input).  [add("k", "hello", 0)] on a new registry:
    the call returns the value and stores an item, but the start and
    check times are the clock's reading, 1700000000000, not the [now]
    that was given, 0: [now || Date.now()] takes 0 for an omitted
    argument. *)
Theorem add_with_now_zero_reads_the_clock :
  fst (run call_ts [OpAdd "k" (VString "hello") (Some 0);
                    OpGetStartTime "k"; OpGetCheckTime "k"; OpCount] fresh_world)
  = [Normal (VString "hello"); Normal (VNumber 1700000000000);
     Normal (VNumber 1700000000000); Normal (VNumber 1)].
Proof. reflexivity. Qed.

(** C8 (the failing inputs).  With [now = 5], [add("k", v, now - 5)] is
    given the start time 0 and stores the clock's reading instead, so
    [elapseTime("k", now)] is [5 - 1700000000000]; with [now = 0],
    [elapseTime("k", now)] reads the clock instead of using 0 and gives
    [1700000000000 + 5].  Neither is 5.  An untracked key gives -1. *)
Theorem elapsed_time_with_zero_timestamp :
  fst (run call_ts [OpAdd "k" (VString "hello") (Some (5 - 5));
                    OpElapseTime "k" (Some 5)] fresh_world)
  = [Normal (VString "hello"); Normal (VNumber (5 - 1700000000000))] /\
  fst (run call_ts [OpAdd "k" (VString "hello") (Some (0 - 5));
                    OpElapseTime "k" (Some 0)] fresh_world)
  = [Normal (VString "hello"); Normal (VNumber (1700000000000 + 5))] /\
  fst (run call_ts [OpElapseTime "k" (Some 5); OpElapseCheckTime "k" (Some 5)]
         fresh_world)
  = [Normal (VNumber (-1)); Normal (VNumber (-1))].
Proof. repeat split; reflexivity. Qed.

(** ** [resetCheckTime] *)

Lemma get_prop_reset_to n values k :
  get_prop (reset_to n values) k
  = option_map (fun x => set_lastXTime x n) (get_prop values k).
Proof.
  induction values as [|[k0 s0] rest IH]; simpl; [reflexivity|].
  destruct (String.eqb k0 k); [reflexivity | exact IH].
Qed.

(** With a [now] that stands, the loop gives every item that check
    time, and reads no clock. *)
Lemma reset_each_given values n w :
  n <> 0 -> Ts.reset_each values (Some n) w = (Normal (reset_to n values), w).
Proof.
  intros Hn. apply Z.eqb_neq in Hn. revert w.
  induction values as [|[k0 [x|]] rest IH]; intros w; simpl; [reflexivity| |];
    unfold bind; rewrite ?Hn; simpl; rewrite IH; reflexivity.
Qed.

(** With [now] omitted, the loop reads the clock once for each item, as
    it reaches it: the item of the [j]-th tracked key, in property
    order, gets the [j]-th reading from the start of the loop. *)
Lemma reset_each_omitted values w :
  exists props w',
    Ts.reset_each values None w = (Normal props, w') /\
    this w' = this w /\ clock w' = clock w /\
    reads w' = (reads w + length (tracked_keys values))%nat /\
    (forall k, get_prop values k = None -> get_prop props k = None) /\
    (NoDup (map fst values) ->
     forall j k x,
       tracked_keys values !! j = Some k -> get_prop values k = Some x ->
       get_prop props k = Some (set_lastXTime x (clock w (reads w + j)))).
Proof.
  revert w. induction values as [|[k0 [x0|]] rest IH]; intros w; simpl.
  - exists [], w. repeat split; auto; try lia.
    intros _ j k x Hj. destruct j; discriminate.
  - unfold bind. simpl.
    set (w1 := mkWorld _ _ _ _ _ _).
    destruct (IH w1) as (props & w' & -> & Hthis & Hclock & Hreads & Hnone & Hsome).
    eexists _, _. split; [reflexivity|].
    split; [exact Hthis|]. split; [exact Hclock|].
    split; [rewrite Hreads; simpl; lia|]. split.
    + intros k. simpl. destruct (String.eqb k0 k); [discriminate | apply Hnone].
    + intros Hnd j k x Hj Hk. apply NoDup_cons in Hnd as [Hk0 Hnd]. simpl.
      destruct j as [|j]; simpl in Hj.
      * injection Hj as <-. rewrite String.eqb_refl in *. injection Hk as <-.
        rewrite Nat.add_0_r. reflexivity.
      * destruct (String.eqb_spec k0 k) as [->|Hne].
        { exfalso. apply Hk0.
          apply list_elem_of_In, tracked_keys_In, list_elem_of_In.
          eapply list_elem_of_lookup_2, Hj. }
        rewrite (Hsome Hnd j k x Hj Hk).
        replace (reads w + S j)%nat with (reads w1 + j)%nat by (simpl; lia).
        reflexivity.
  - unfold bind.
    destruct (IH w) as (props & w' & -> & Hthis & Hclock & Hreads & Hnone & Hsome).
    eexists _, _. split; [reflexivity|].
    split; [exact Hthis|]. split; [exact Hclock|]. split; [exact Hreads|]. split.
    + intros k. simpl. destruct (String.eqb k0 k); [reflexivity | apply Hnone].
    + intros Hnd j k x Hj Hk. apply NoDup_cons in Hnd as [Hk0 Hnd]. simpl.
      destruct (String.eqb k0 k); [discriminate|].
      apply (Hsome Hnd j k x Hj Hk).
Qed.

(** The loop never throws, and changes nothing but check times. *)
Lemma reset_each_returns values now w :
  exists props w',
    Ts.reset_each values now w = (Normal props, w') /\
    this w' = this w /\ heap w' = heap w /\ jobs w' = jobs w /\
    map fst props = map fst values /\ tracked_keys props = tracked_keys values /\
    written w' = written w.
Proof.
  revert w. induction values as [|[k0 [x|]] rest IH]; intros w; simpl.
  - exists [], w. repeat split; reflexivity.
  - unfold bind.
    pose proof (now_or_Date_now_written now w) as Hwr.
    destruct (now_or_Date_now_frame now w) as (t & w1 & Hnow & Hthis & Hheap & Hjobs & _).
    rewrite Hnow in *. simpl in Hwr.
    destruct (IH w1) as (props & w' & -> & Hthis' & Hheap' & Hjobs' & Hkeys & Htracked & Hwr').
    eexists _, _. split; [reflexivity|]. simpl.
    repeat split; congruence.
  - unfold bind.
    destruct (IH w) as (props & w' & -> & Hthis' & Hheap' & Hjobs' & Hkeys & Htracked & Hwr').
    eexists _, _. split; [reflexivity|]. simpl.
    repeat split; congruence.
Qed.

Lemma reset_item_returns key x now w :
  exists w', reset_item key x now w = (Normal tt, w').
Proof.
  unfold reset_item, bind, get_this, put_this.
  destruct (now_or_Date_now_frame now w) as (t & w1 & -> & _). eauto.
Qed.

(** Resetting the item under a key: only its check time changes. *)
Lemma reset_item_resets key x now w :
  get_prop (_inflights (this w)) key = Some x -> stands now ->
  exists w',
    reset_item key x now w = (Normal tt, w') /\
    get_prop (_inflights (this w')) key = Some (set_lastXTime x (now_or_clock now w)) /\
    (forall k, k <> key ->
       get_prop (_inflights (this w')) k = get_prop (_inflights (this w)) k) /\
    _count (this w') = _count (this w).
Proof.
  intros Hk Hnow. unfold reset_item, bind, get_this, put_this.
  destruct (now_or_Date_now_stands now w Hnow) as (w1 & -> & Hthis & _).
  eexists. split; [reflexivity|]. simpl. rewrite Hthis.
  split; [|split; [|reflexivity]].
  - apply get_prop_replace_eq. eapply get_prop_has_own, Hk.
  - intros k Hne. apply get_prop_replace_ne. congruence.
Qed.

Lemma reset_key_tracked k x now w :
  get_prop (_inflights (this w)) k = Some x ->
  reset_key k now w = reset_item k x now w.
Proof.
  intros Hk. unfold reset_key, bind, inflights_at.
  rewrite (lookup_tracked _ _ _ Hk). reflexivity.
Qed.

Lemma reset_key_untracked k now w :
  untracked w k -> reset_key k now w = (Normal tt, w).
Proof. intros Hk. unfold reset_key, bind, inflights_at. rewrite Hk. reflexivity. Qed.

(** C9 (as amended).  When [resetCheckTime] looks a key up (a given,
    non-empty key; in [lib/index.js] any key, an omitted one being read
    as ["undefined"]): if the key is tracked, its check time becomes
    [now] when a non-zero [now] is given and the clock's reading when
    [now] is omitted, and nothing else changes; if nothing is found
    under the key, nothing changes and nothing is thrown.  In
    [src/index.ts], with the key omitted, every tracked entry has its
    check time reset: to [now] when a non-zero [now] is given, no clock
    being read; and with [now] omitted too, each to the reading of the
    clock taken when the loop reaches the entry, so that the entry of
    the [j]-th tracked key in property order gets the [j]-th reading
    from the start of the call.  In each of these cases the call
    returns the registry instance. *)
Theorem resetCheckTime_resets :
  (forall impl key k now x w,
      looked_up impl key = Some k ->
      get_prop (_inflights (this w)) k = Some x ->
      stands now ->
      exists w',
        resetCheckTime_in impl key now w = (Normal VInflight, w') /\
        get_prop (_inflights (this w')) k
          = Some (set_lastXTime x (now_or_clock now w)) /\
        (forall k', k' <> k ->
           get_prop (_inflights (this w')) k' = get_prop (_inflights (this w)) k') /\
        _count (this w') = _count (this w)) /\
  (forall impl key k now w,
      looked_up impl key = Some k ->
      untracked w k ->
      resetCheckTime_in impl key now w = (Normal VInflight, w)) /\
  (forall n w,
      n <> 0 ->
      exists w',
        Ts.resetCheckTime None (Some n) w = (Normal VInflight, w') /\
        _count (this w') = _count (this w) /\
        reads w' = reads w /\
        forall k,
          get_prop (_inflights (this w')) k
          = option_map (fun x => set_lastXTime x n) (get_prop (_inflights (this w)) k)) /\
  (forall w,
      NoDup (map fst (_inflights (this w))) ->
      exists w',
        Ts.resetCheckTime None None w = (Normal VInflight, w') /\
        _count (this w') = _count (this w) /\
        reads w' = (reads w + length (tracked_keys (_inflights (this w))))%nat /\
        (forall j k x,
            tracked_keys (_inflights (this w)) !! j = Some k ->
            get_prop (_inflights (this w)) k = Some x ->
            get_prop (_inflights (this w')) k
            = Some (set_lastXTime x (clock w (reads w + j)))) /\
        (forall k,
            get_prop (_inflights (this w)) k = None ->
            get_prop (_inflights (this w')) k = None)) /\
  (forall impl key now w,
      (forall k, looked_up impl key = Some k -> tracked w k \/ untracked w k) ->
      fst (resetCheckTime_in impl key now w) = Normal VInflight).
Proof.
  split; [|split; [|split; [|split]]].
  - intros impl key k now x w Hkey Hk Hnow.
    rewrite (resetCheckTime_looked_up impl key k now w Hkey).
    destruct (reset_item_resets k x now w Hk Hnow) as (w' & Hrun & Hget & Hothers & Hcount).
    exists w'. unfold bind. rewrite (reset_key_tracked k x now w Hk), Hrun. auto.
  - intros impl key k now w Hkey Hk.
    rewrite (resetCheckTime_looked_up impl key k now w Hkey).
    unfold bind. rewrite (reset_key_untracked k now w Hk). reflexivity.
  - intros n w Hn. unfold Ts.resetCheckTime, bind, get_this, put_this.
    rewrite (reset_each_given _ n w Hn).
    eexists. split; [reflexivity|]. simpl.
    split; [reflexivity|]. split; [reflexivity|].
    intros k. apply get_prop_reset_to.
  - intros w Hnd. unfold Ts.resetCheckTime, bind, get_this, put_this.
    destruct (reset_each_omitted (_inflights (this w)) w)
      as (props & w' & -> & Hthis & _ & Hreads & Hnone & Hsome).
    eexists. split; [reflexivity|]. simpl. rewrite Hthis.
    split; [reflexivity|]. split; [exact Hreads|].
    split; [exact (Hsome Hnd) | exact Hnone].
  - intros impl key now w Hfound.
    destruct (looked_up impl key) as [k|] eqn:Hlook.
    + rewrite (resetCheckTime_looked_up impl key k now w Hlook). unfold bind.
      destruct (Hfound k eq_refl) as [[x Hx]|Hk].
      * rewrite (reset_key_tracked k x now w Hx).
        destruct (reset_item_returns k x now w) as (w' & ->). reflexivity.
      * rewrite (reset_key_untracked k now w Hk). reflexivity.
    + rewrite (resetCheckTime_not_looked_up impl key now w Hlook).
      unfold Ts.resetCheckTime, bind, get_this, put_this.
      destruct (reset_each_returns (_inflights (this w)) now w) as (props & w' & -> & _).
      reflexivity.
Qed.

Lemma resetCheckTime_resets_witness :
  looked_up SrcIndexTs (Some "test"%string) = Some "test"%string /\
  stands (Some 7) /\
  fst (run call_ts [OpResetCheckTime (Some "test"%string) (Some 7);
                    OpGetCheckTime "test"; OpGetCheckTime "foo"] two_tracked)
  = [Normal VInflight; Normal (VNumber 7); Normal (VNumber 1700000000000)] /\
  (exists w',
    resetCheckTime_in SrcIndexTs (Some "test"%string) (Some 7) two_tracked
      = (Normal VInflight, w') /\
    get_prop (_inflights (this w')) "test"
      = Some (mkItem 1700000000001 7 (VString "hello"))) /\
  NoDup (map fst (_inflights (this two_tracked))) /\
  tracked_keys (_inflights (this two_tracked)) !! 1%nat = Some "test"%string /\
  exists w',
    Ts.resetCheckTime None None two_tracked = (Normal VInflight, w') /\
    get_prop (_inflights (this w')) "test"
      = Some (mkItem 1700000000001 (ticking 3) (VString "hello")).
Proof.
  assert (Hnd : NoDup (map fst (_inflights (this two_tracked)))).
  { simpl. apply NoDup_cons. split; [|apply NoDup_singleton].
    intros H. apply list_elem_of_singleton in H. discriminate. }
  split; [reflexivity|]. split; [discriminate|]. split; [reflexivity|].
  split; [|split; [exact Hnd|split; [reflexivity|]]].
  - destruct (proj1 resetCheckTime_resets SrcIndexTs (Some "test"%string) "test"%string
                (Some 7) (mkItem 1700000000001 1700000000001 (VString "hello"))
                two_tracked eq_refl eq_refl)
      as (w' & Hrun & Hget & _).
    + discriminate.
    + exists w'. split; [exact Hrun | exact Hget].
  - destruct (proj1 (proj2 (proj2 (proj2 resetCheckTime_resets))) two_tracked Hnd)
      as (w' & Hrun & _ & _ & Hsome & _).
    exists w'. split; [exact Hrun|].
    exact (Hsome 1%nat "test"%string
             (mkItem 1700000000001 1700000000001 (VString "hello")) eq_refl eq_refl).
Defined.

(** C9 (counterexample).  Two entries are tracked.  In [src/index.ts],
    [resetCheckTime()] with neither key nor [now] reads the clock once
    for each entry, and the two check times differ.  In [lib/index.js],
    [resetCheckTime(undefined, 7)] looks up the key ["undefined"] and
    resets no tracked entry. *)
Lemma resetCheckTime_counterexample :
  fst (run call_ts [OpResetCheckTime None None;
                    OpGetCheckTime "foo"; OpGetCheckTime "test"] two_tracked)
  = [Normal VInflight; Normal (VNumber 1700000000002);
     Normal (VNumber 1700000000003)] /\
  fst (run call_js [OpResetCheckTime None (Some 7);
                    OpGetCheckTime "foo"; OpGetCheckTime "test"] two_tracked)
  = [Normal VInflight; Normal (VNumber 1700000000000);
     Normal (VNumber 1700000000001)].
Proof. split; reflexivity. Qed.

(** ** The two implementations side by side *)

Lemma tracked_truthy key w : tracked w key -> found_truthy (lookup w key) = true.
Proof. intros [x Hx]. rewrite (lookup_tracked _ _ _ Hx). reflexivity. Qed.

Lemma common_ground_agree op w :
  common_ground op w -> call_ts op w = call_js op w.
Proof.
  destruct op as [key f| | | | | | | | | | | |key now]; try reflexivity.
  - intros H. unfold call_ts, call_js, call_in, call.
    destruct (found_truthy (lookup w key)) eqn:Hk.
    { rewrite !(promise_in_truthy _ key f w Hk). reflexivity. }
    destruct H as [Ht|[(e & w' & Hf)|(p & w' & Hf)]].
    + apply tracked_truthy in Ht. congruence.
    + rewrite !(promise_in_catches _ key f e w w' Hk Hf). reflexivity.
    + simpl. run_monad. rewrite Hk. run_monad. rewrite Hf. reflexivity.
  - intros (k & -> & Hk). unfold call_ts, call_js, call_in, call.
    rewrite (resetCheckTime_looked_up SrcIndexTs (Some k) k now w).
    + rewrite (resetCheckTime_looked_up LibIndexJs (Some k) k now w); reflexivity.
    + simpl. apply String.eqb_neq in Hk. rewrite Hk. reflexivity.
Qed.

(** C10 (as amended).  On every call but [resetCheckTime] without a
    non-empty key and [promise] with a factory that returns something
    else than a promise, the two implementations give the same
    completion and leave the same world, and so do they on sequences of
    such calls; the two constructors choose the same Promise
    implementation when one is supplied, when bluebird is installed, or
    when aveazul is not installed. *)
Theorem implementations_agree_on_common_ground :
  (forall op w, common_ground op w -> call_ts op w = call_js op w) /\
  (forall ops w, all_common_ground ops w -> run call_ts ops w = run call_js ops w) /\
  (forall installed xPromise,
      is_Some xPromise \/ installed "bluebird"%string = true
      \/ installed "aveazul"%string = false ->
      Ts.constructor installed xPromise = Js.constructor installed xPromise).
Proof.
  split; [exact common_ground_agree|]. split.
  - intros ops. induction ops as [|op ops IH]; intros w; [reflexivity|].
    intros [Hop Hrest]. cbn [run].
    rewrite <- (common_ground_agree op w Hop).
    destruct (call_ts op w) as [r w']. simpl in Hrest.
    rewrite (IH w' Hrest). reflexivity.
  - intros installed xPromise H.
    unfold Ts.constructor, Js.constructor, Js.module_Promise, optionalRequire.
    destruct xPromise as [P|]; [reflexivity|].
    destruct (installed "bluebird"%string); [reflexivity|].
    destruct H as [[P HP]|[H|H]]; [discriminate | discriminate |].
    rewrite H. reflexivity.
Qed.

Lemma implementations_agree_on_common_ground_witness :
  all_common_ground
    [OpPromise "k" pending_factory; OpPromise "k" number_factory;
     OpResetCheckTime (Some "k"%string) (Some 7); OpElapseCheckTime "k" (Some 9);
     OpRemove "k"; OpPromise "j" throwing_factory; OpIsEmpty] fresh_world /\
  run call_ts
    [OpPromise "k" pending_factory; OpPromise "k" number_factory;
     OpResetCheckTime (Some "k"%string) (Some 7); OpElapseCheckTime "k" (Some 9);
     OpRemove "k"; OpPromise "j" throwing_factory; OpIsEmpty] fresh_world
  = run call_js
    [OpPromise "k" pending_factory; OpPromise "k" number_factory;
     OpResetCheckTime (Some "k"%string) (Some 7); OpElapseCheckTime "k" (Some 9);
     OpRemove "k"; OpPromise "j" throwing_factory; OpIsEmpty] fresh_world /\
  Ts.constructor only_aveazul (Some GlobalPromise)
  = Js.constructor only_aveazul (Some GlobalPromise).
Proof.
  assert (H : all_common_ground
    [OpPromise "k" pending_factory; OpPromise "k" number_factory;
     OpResetCheckTime (Some "k"%string) (Some 7); OpElapseCheckTime "k" (Some 9);
     OpRemove "k"; OpPromise "j" throwing_factory; OpIsEmpty] fresh_world).
  { simpl. split; [right; right; eexists _, _; reflexivity|].
    split; [left; eexists; reflexivity|].
    split; [exists "k"%string; split; [reflexivity | discriminate]|].
    split; [exact I|]. split; [exact I|].
    split; [right; left; eexists _, _; reflexivity|].
    split; exact I. }
  split; [exact H|]. split.
  - exact (proj1 (proj2 implementations_agree_on_common_ground) _ _ H).
  - apply (proj2 (proj2 implementations_agree_on_common_ground)).
    left. eexists. reflexivity.
Defined.

(** C10 (counterexample).  With two entries tracked,
    [resetCheckTime(undefined, 7)] sets every check time to 7 in
    [src/index.ts] and none in [lib/index.js]; and with aveazul the only
    optional module installed, [new Inflight()] takes aveazul's Promise
    in [src/index.ts] and the platform's in [lib/index.js]. *)
Lemma implementations_differ :
  fst (run call_ts [OpResetCheckTime None (Some 7);
                    OpGetCheckTime "foo"; OpGetCheckTime "test"] two_tracked)
  = [Normal VInflight; Normal (VNumber 7); Normal (VNumber 7)] /\
  fst (run call_js [OpResetCheckTime None (Some 7);
                    OpGetCheckTime "foo"; OpGetCheckTime "test"] two_tracked)
  = [Normal VInflight; Normal (VNumber 1700000000000);
     Normal (VNumber 1700000000001)] /\
  Ts.constructor only_aveazul None = mkInflight 0 [] (Required "aveazul") /\
  Js.constructor only_aveazul None = mkInflight 0 [] GlobalPromise /\
  Ts.constructor only_aveazul None <> Js.constructor only_aveazul None.
Proof. repeat split; try reflexivity. discriminate. Qed.

(** The two [promise] methods also part on a factory that returns no
    promise: the messages differ, and [lib/index.js], which only asks
    for a truthy [then], registers an object whose [then] is not
    callable and leaves it tracked. *)
Lemma promise_differs_on_non_promise :
  fst (run call_ts [OpPromise "k" (ret (VObject (VNumber 1))); OpCount] fresh_world)
  = [Normal (VPromise 0); Normal (VNumber 0)] /\
  fst (run call_js [OpPromise "k" (ret (VObject (VNumber 1))); OpCount] fresh_world)
  = [Normal (VPromise 0); Normal (VNumber 1)] /\
  rejected_with (snd (Ts.promise "k" number_factory fresh_world)) 0
    (VError "AssertionError"
       "xflight: promiseFactory for key k didn't return a promise") /\
  rejected_with (snd (Js.promise "k" number_factory fresh_world)) 0
    (VError "AssertionError" "xflight: func for key k didn't return a promise").
Proof.
  split; [reflexivity|]. split; [reflexivity|].
  split; eexists; split; reflexivity.
Qed.

(** ** What every call keeps

    The count invariant survives every call of the interface that does
    not remove an inherited name; an armed hook survives every call; a
    hook stops being armed only by running. *)

Section preservation.
Context {A B : Type} (P : World -> Prop).

Lemma preserves_ret (a : A) : preserves P (ret a).
Proof. intros w Hw. exact Hw. Qed.

Lemma preserves_throw e : preserves P (@throw A e).
Proof. intros w Hw. exact Hw. Qed.

Lemma preserves_bind (m : M A) (k : A -> M B) :
  preserves P m -> (forall a, preserves P (k a)) -> preserves P (bind m k).
Proof.
  intros Hm Hk w Hw. unfold bind. specialize (Hm w Hw).
  destruct (m w) as [[a|e] w']; simpl in *; [apply Hk|]; exact Hm.
Qed.

Lemma preserves_try_catch (m : M A) (h : JsValue -> M A) :
  preserves P m -> (forall e, preserves P (h e)) -> preserves P (try_catch m h).
Proof.
  intros Hm Hh w Hw. unfold try_catch. specialize (Hm w Hw).
  destruct (m w) as [[a|e] w']; simpl in *; [|apply Hh]; exact Hm.
Qed.

End preservation.

Lemma preserves_get_this P : preserves P get_this.
Proof. intros w Hw. exact Hw. Qed.

Lemma preserves_inflights_at P key : preserves P (inflights_at key).
Proof. intros w Hw. exact Hw. Qed.

Lemma preserves_assert P cond message : preserves P (assert cond message).
Proof. intros w Hw. unfold assert. destruct cond; exact Hw. Qed.

Create HintDb preserves.

#[local] Hint Resolve preserves_ret preserves_throw preserves_get_this
  preserves_inflights_at preserves_assert : preserves.

Ltac preserves_step :=
  first
    [ solve [auto with preserves]
    | lazymatch goal with
      | |- preserves _ (bind _ _) => apply preserves_bind; [|intros ?; cbv beta]
      | |- preserves _ (try_catch _ _) => apply preserves_try_catch; [|intros ?; cbv beta]
      | |- preserves _ (match ?x with _ => _ end) => destruct x
      end ].

Ltac preserves_all := repeat preserves_step.

Lemma preserves_frame {A} P (m : M A) :
  of_heap_and_jobs P ->
  (forall w, heap (snd (m w)) = heap w /\ jobs (snd (m w)) = jobs w) ->
  preserves P m.
Proof. intros HP H w Hw. destruct (H w). eapply HP; eassumption. Qed.

Lemma add_frame key v now w :
  heap (snd (add key v now w)) = heap w /\ jobs (snd (add key v now w)) = jobs w.
Proof.
  destruct (lookup w key) eqn:Hx.
  - destruct (add_untracked key v now w Hx) as (t & w1 & Hnow & ->).
    destruct (now_or_Date_now_frame now w) as (t' & w1' & Hnow' & _ & Hheap & Hjobs & _).
    rewrite Hnow in Hnow'. injection Hnow' as <- <-. simpl. auto.
  - rewrite add_found by (rewrite Hx; discriminate). auto.
  - rewrite add_found by (rewrite Hx; discriminate). auto.
  - rewrite add_found by (rewrite Hx; discriminate). auto.
Qed.

Lemma reset_key_frame key now w :
  heap (snd (reset_key key now w)) = heap w /\ jobs (snd (reset_key key now w)) = jobs w.
Proof.
  unfold reset_key, bind, inflights_at.
  destruct (found_truthy (lookup w key)); [|auto].
  destruct (lookup w key); simpl; [auto| | |];
    unfold reset_item, bind, get_this, put_this;
    destruct (now_or_Date_now_frame now w) as (t & w1 & -> & _ & Hheap & Hjobs & _);
    simpl; auto.
Qed.

Lemma resetCheckTime_frame impl key now w :
  heap (snd (resetCheckTime_in impl key now w)) = heap w /\
  jobs (snd (resetCheckTime_in impl key now w)) = jobs w.
Proof.
  destruct (looked_up impl key) as [k|] eqn:Hlook.
  - rewrite (resetCheckTime_looked_up impl key k now w Hlook).
    pose proof (reset_key_frame k now w) as H. unfold bind.
    destruct (reset_key k now w) as [[[]|e] w']; exact H.
  - rewrite (resetCheckTime_not_looked_up impl key now w Hlook).
    unfold Ts.resetCheckTime, bind, get_this, put_this.
    destruct (reset_each_returns (_inflights (this w)) now w)
      as (props & w' & -> & _ & Hheap & Hjobs & _).
    simpl. auto.
Qed.

(** Every call but [promise] leaves the promises and the queue as they
    are. *)
Lemma call_frame impl op w :
  match op with
  | OpPromise _ _ => True
  | _ => heap (snd (call_in impl op w)) = heap w /\ jobs (snd (call_in impl op w)) = jobs w
  end.
Proof.
  destruct op as [k f|k v now|k|k| | |k|k now|k now|k|k now|k now|k now];
    try exact I.
  1: { apply add_frame. }
  2: { unfold call_in, call, bind.
       destruct (remove_frame k w) as (Hh & Hj & _).
       destruct (remove k w) as [[[]|e] w']; simpl in *; auto. }
  10: { apply resetCheckTime_frame. }
  all: match goal with
       | |- context [call_in ?i ?op ?w0] =>
           destruct (query_frame i op w0 eq_refl) as (v & w' & -> & _ & Hh & Hj & _)
       end; simpl; auto.
Qed.

(** [promise] keeps a property of the heap and the queue that its
    factory, [then] and [reject] keep. *)
Lemma promise_preserves P impl key f :
  of_heap_and_jobs P ->
  preserves P f ->
  (forall v, preserves P (then_ v (RemoveKey key) (RemoveKey key))) ->
  (forall C e, preserves P (reject C e)) ->
  preserves P (promise_in impl key f).
Proof.
  intros HP Hf Hthen Hreject.
  assert (Hadd : forall v, preserves P (add key v None)).
  { intros v. apply preserves_frame; [exact HP | apply add_frame]. }
  destruct impl; simpl; unfold Ts.promise, Js.promise; preserves_all.
Qed.

(** *** The count invariant *)

Lemma put_this_consistent o : consistent o -> preserves registry_consistent (put_this o).
Proof. intros Ho w _. exact Ho. Qed.

Lemma preserves_same_this {A} (m : M A) :
  (forall w, this (snd (m w)) = this w) -> preserves registry_consistent m.
Proof. intros H w Hw. unfold registry_consistent. rewrite H. exact Hw. Qed.

Lemma now_or_Date_now_consistent now :
  preserves registry_consistent (now_or_Date_now now).
Proof.
  apply preserves_same_this. intros w.
  destruct (now_or_Date_now_frame now w) as (t & w1 & -> & Hthis & _). exact Hthis.
Qed.

Lemma then_this v cb1 cb2 w : this (snd (then_ v cb1 cb2 w)) = this w.
Proof.
  destruct v; try reflexivity. simpl.
  destruct (heap w !! p) as [obj|]; [|reflexivity].
  destruct (state obj); reflexivity.
Qed.

Lemma then_consistent v cb1 cb2 : preserves registry_consistent (then_ v cb1 cb2).
Proof. apply preserves_same_this. apply then_this. Qed.

Lemma reject_consistent P e : preserves registry_consistent (reject P e).
Proof. apply preserves_same_this. reflexivity. Qed.

Lemma add_preserves_consistent key v now :
  preserves registry_consistent (add key v now).
Proof. intros w. apply add_consistent. Qed.

Lemma replace_item_consistent c o P key x y :
  get_prop o key = Some x ->
  consistent (mkInflight c o P) ->
  consistent (mkInflight c (replace_prop o key (Some y)) P).
Proof.
  intros Hk [Hnd Hc]. simpl in *. split; simpl.
  - rewrite keys_replace_prop. exact Hnd.
  - pose proof (tracked_replace_prop o key (Some y) (get_prop_has_own _ _ _ Hk)) as H.
    rewrite Hk in H. simpl in H. lia.
Qed.

Lemma reset_item_consistent key x now w :
  get_prop (_inflights (this w)) key = Some x ->
  registry_consistent w -> registry_consistent (snd (reset_item key x now w)).
Proof.
  intros Hk Hc. unfold reset_item, bind, get_this, put_this.
  destruct (now_or_Date_now_frame now w) as (t & w1 & -> & Hthis & _).
  unfold registry_consistent in *. simpl. rewrite Hthis.
  apply (replace_item_consistent _ _ _ key x); [exact Hk|].
  destruct (this w). exact Hc.
Qed.

Lemma lookup_item_own key x w :
  lookup w key = FItem x -> get_prop (_inflights (this w)) key = Some x.
Proof.
  unfold lookup, lookup_in. destruct (has_own (_inflights (this w)) key).
  - destruct (get_prop (_inflights (this w)) key); [congruence | discriminate].
  - unfold inherited.
    destruct (String.eqb key "__proto__"); [discriminate|].
    destruct (is_Object_prototype_function key); [discriminate|].
    destruct (String.eqb key "lastXTime"); [|discriminate].
    destruct (own_lastXTime (written w) ObjectPrototype); discriminate.
Qed.

Lemma reset_key_consistent key now : preserves registry_consistent (reset_key key now).
Proof.
  intros w Hw. unfold reset_key, bind, inflights_at.
  destruct (found_truthy (lookup w key)); [|exact Hw].
  destruct (lookup w key) as [|i|b|n] eqn:Hx.
  - exact Hw.
  - apply reset_item_consistent; [apply lookup_item_own, Hx | exact Hw].
  - unfold registry_consistent.
    rewrite assign_lastXTime_inherited_this by discriminate. exact Hw.
  - unfold registry_consistent.
    rewrite assign_lastXTime_inherited_this by discriminate. exact Hw.
Qed.

Lemma resetCheckTime_consistent impl key now :
  preserves registry_consistent (resetCheckTime_in impl key now).
Proof.
  intros w Hw.
  destruct (looked_up impl key) as [k|] eqn:Hlook.
  - rewrite (resetCheckTime_looked_up impl key k now w Hlook).
    pose proof (reset_key_consistent k now w Hw) as H. unfold bind.
    destruct (reset_key k now w) as [[[]|e] w']; exact H.
  - rewrite (resetCheckTime_not_looked_up impl key now w Hlook).
    destruct Hw as [Hnd Hc].
    unfold Ts.resetCheckTime, bind, get_this, put_this.
    destruct (reset_each_returns (_inflights (this w)) now w)
      as (props & w' & -> & Hthis & _ & _ & Hkeys & Htracked & _).
    split; simpl; rewrite ?Hthis; congruence.
Qed.

#[local] Hint Resolve now_or_Date_now_consistent then_consistent reject_consistent
  add_preserves_consistent : preserves.

(** Every call keeps the count invariant, when the factories do and no
    inherited name is removed. *)
Lemma call_consistent impl op :
  removes_plain op ->
  factory_preserves registry_consistent op ->
  preserves registry_consistent (call_in impl op).
Proof.
  intros Hp Hf.
  destruct op as [k f|k v now|k|k| | |k|k now|k now|k|k now|k now|k now];
    simpl in Hp, Hf.
  1: { unfold call_in, call.
       destruct impl; simpl; unfold Ts.promise, Js.promise; preserves_all. }
  1: { apply add_preserves_consistent. }
  2: { intros w Hw. unfold call_in, call, bind.
       pose proof (remove_plain_consistent k w Hp Hw) as H.
       destruct (remove k w) as [[[]|e] w']; exact H. }
  10: { apply resetCheckTime_consistent. }
  all: intros w Hw;
    match goal with
    | |- context [call_in ?i ?op ?w0] =>
        destruct (query_frame i op w0 eq_refl) as (v & w' & -> & Hthis & _)
    end; unfold registry_consistent; simpl; rewrite Hthis; exact Hw.
Qed.

(** ... and so does every sequence of calls. *)
Lemma run_consistent impl ops w :
  Forall removes_plain ops ->
  Forall (factory_preserves registry_consistent) ops ->
  registry_consistent w ->
  registry_consistent (snd (run (call_in impl) ops w)).
Proof.
  intros Hp Hops. revert w.
  induction ops as [|op ops IH]; intros w Hw; [exact Hw|].
  apply List.Forall_cons_iff in Hp as [Hp1 Hp2].
  apply List.Forall_cons_iff in Hops as [Hop1 Hop2].
  cbn [run]. pose proof (call_consistent impl op Hp1 Hop1 w Hw) as H.
  destruct (call_in impl op w) as [r w']. specialize (IH Hp2 Hop2 w' H).
  destruct (run (call_in impl) ops w') as [rs w'']. exact IH.
Qed.

Lemma settle_consistent p s w :
  registry_consistent w -> registry_consistent (settle p s w).
Proof. unfold registry_consistent. rewrite settle_this. auto. Qed.

(** *** An armed hook *)

Lemma hook_armed_frame key p : of_heap_and_jobs (hook_armed key p).
Proof. unfold of_heap_and_jobs, hook_armed. intros w w' -> ->. auto. Qed.

Lemma hook_armed_grow key p w h js :
  hook_armed key p w ->
  hook_armed key p (with_jobs (jobs w ++ js) (with_heap (heap w ++ h) w)).
Proof.
  intros [(obj & d & Hp & Hst & Hin)|(arg & d & Hin)].
  - left. exists obj, d. simpl. split; [|auto].
    rewrite lookup_app_l; [exact Hp | eapply lookup_lt_Some, Hp].
  - right. exists arg, d. simpl. apply in_or_app. auto.
Qed.

Lemma alloc_armed key p o : preserves (hook_armed key p) (alloc o).
Proof.
  intros w Hw. unfold alloc. simpl.
  apply (hook_armed_frame key p (with_jobs (jobs w ++ []) (with_heap (heap w ++ [o]) w))).
  - reflexivity.
  - simpl. symmetry. apply app_nil_r.
  - apply hook_armed_grow, Hw.
Qed.

Lemma reject_armed key p P e : preserves (hook_armed key p) (reject P e).
Proof.
  unfold reject. apply preserves_bind; [apply alloc_armed|].
  intros a. apply preserves_ret.
Qed.

Lemma then_armed key p v cb1 cb2 : preserves (hook_armed key p) (then_ v cb1 cb2).
Proof.
  intros w Hw. destruct v as [| | | | | | | |q|]; try exact Hw. simpl.
  destruct (heap w !! q) as [obj|] eqn:Hq; [|exact Hw].
  destruct (state obj) eqn:Hst; simpl.
  - destruct Hw as [(obj' & d & Hp & Hst' & Hin)|(arg & d & Hin)].
    + left. destruct (Nat.eq_dec q p) as [->|Hne].
      * rewrite Hq in Hp. injection Hp as <-.
        eexists _, d. simpl. split; [|split].
        -- apply list_lookup_insert_eq. rewrite length_app.
           apply lookup_lt_Some in Hq. lia.
        -- reflexivity.
        -- simpl. apply in_or_app. auto.
      * exists obj', d. simpl. split; [|auto].
        rewrite list_lookup_insert_ne by exact Hne.
        rewrite lookup_app_l; [exact Hp | eapply lookup_lt_Some, Hp].
    + right. exists arg, d. exact Hin.
  - apply (hook_armed_grow key p w _ _ Hw).
  - apply (hook_armed_grow key p w _ _ Hw).
Qed.

(** Settling any promise leaves the hook armed: on its own promise it
    becomes due. *)
Lemma settle_armed key p q s w :
  hook_armed key p w -> hook_armed key p (settle q s w).
Proof.
  intros Hw. destruct (Nat.eq_dec q p) as [->|Hne].
  { right. apply settle_makes_due, Hw. }
  unfold settle. destruct (heap w !! q) as [obj|] eqn:Hq; [|exact Hw].
  destruct (state obj); try exact Hw.
  destruct Hw as [(obj' & d & Hp & Hst' & Hin)|(arg & d & Hin)].
  - left. exists obj', d. simpl. split; [|auto].
    rewrite list_lookup_insert_ne by exact Hne. exact Hp.
  - right. exists arg, d. simpl. apply in_or_app. auto.
Qed.

Lemma remove_armed key p k : preserves (hook_armed key p) (remove k).
Proof.
  apply preserves_frame; [apply hook_armed_frame|].
  intros w. destruct (remove_frame k w) as (? & ? & _). auto.
Qed.

(** Every call leaves the hook armed, when the factories do. *)
Lemma call_armed key p impl op :
  factory_preserves (hook_armed key p) op ->
  preserves (hook_armed key p) (call_in impl op).
Proof.
  intros Hf. destruct op as [k f| | | | | | | | | | | | ].
  1: { apply promise_preserves; [apply hook_armed_frame | exact Hf | |].
       - intros v. apply then_armed.
       - intros C e. apply reject_armed. }
  all: apply preserves_frame; [apply hook_armed_frame|]; intros w;
    match goal with
    | |- context [call_in ?i ?op ?w0] => exact (call_frame i op w0)
    end.
Qed.

(** *** Plain hooks *)

Lemma plain_hooks_of_heap_and_jobs : of_heap_and_jobs plain_hooks.
Proof. intros w w' Hh Hj. apply plain_hooks_frame; assumption. Qed.

Lemma reject_plain_hooks P e : preserves plain_hooks (reject P e).
Proof.
  intros w [Hj Hh]. split; simpl; [exact Hj|].
  apply List.Forall_app. split; [exact Hh|]. constructor; constructor.
Qed.

Lemma then_plain_hooks key v :
  plain key -> preserves plain_hooks (then_ v (RemoveKey key) (RemoveKey key)).
Proof.
  intros Hk w Hw. destruct v as [| | | | | | | |q|]; try exact Hw.
  destruct (heap w !! q) as [obj|] eqn:Hq.
  - destruct (then_attaches key q w) as (w' & -> & _ & _ & _ & H); [eauto|].
    apply H; assumption.
  - simpl. rewrite Hq. exact Hw.
Qed.

(** Every call keeps the hooks plain, when the factories do and
    [promise] is called on plain keys. *)
Lemma call_plain_hooks impl op :
  on_plain_key op ->
  factory_preserves plain_hooks op ->
  preserves plain_hooks (call_in impl op).
Proof.
  intros Hp Hf. destruct op as [k f| | | | | | | | | | | | ].
  1: { apply promise_preserves; [apply plain_hooks_of_heap_and_jobs | exact Hf | |].
       - intros v. apply then_plain_hooks, Hp.
       - intros C e. apply reject_plain_hooks. }
  all: apply preserves_frame; [apply plain_hooks_of_heap_and_jobs|]; intros w;
    match goal with
    | |- context [call_in ?i ?op ?w0] => exact (call_frame i op w0)
    end.
Qed.

(** *** From registration to settlement *)

Lemma on_plain_key_removes_plain op : on_plain_key op -> removes_plain op.
Proof. destruct op; simpl; auto. Qed.

Lemma events_keep_hook impl key p events w :
  Forall (well_behaved key p) events ->
  registry_consistent w -> hook_armed key p w -> plain_hooks w ->
  registry_consistent (fold_left (happen impl) events w) /\
  hook_armed key p (fold_left (happen impl) events w) /\
  plain_hooks (fold_left (happen impl) events w).
Proof.
  intros Hevs. revert w.
  induction Hevs as [|ev events Hev _ IH]; intros w Hc Ha Hph; [auto|].
  simpl. apply IH; destruct ev as [op|q s]; simpl in *.
  - apply call_consistent; [apply on_plain_key_removes_plain| |]; tauto.
  - apply settle_consistent, Hc.
  - apply call_armed; tauto.
  - apply settle_armed, Ha.
  - apply call_plain_hooks; tauto.
  - apply settle_plain_hooks, Hph.
Qed.

(** The scenario of the tests: two calls for the same key while the
    promise is pending give the same promise, the factory has run once
    (one promise allocated besides the derived one), and after
    settlement the key is free. *)
Lemma dedup_scenario :
  fst (run call_ts [OpPromise "test" pending_factory;
                    OpPromise "test" pending_factory;
                    OpGet "test"; OpCount] fresh_world)
  = [Normal (VPromise 0); Normal (VPromise 0); Normal (VPromise 0);
     Normal (VNumber 1)] /\
  length (heap (snd (run call_ts [OpPromise "test" pending_factory;
                                  OpPromise "test" pending_factory] fresh_world)))
  = 2%nat /\
  fst (run call_ts [OpGet "test"; OpCount; OpIsEmpty]
         (drain (settle 0 (Success (VNumber 7))
            (snd (run call_ts [OpPromise "test" pending_factory;
                               OpPromise "test" pending_factory] fresh_world)))))
  = [Normal VUndefined; Normal (VNumber 0); Normal (VBoolean true)].
Proof. repeat split; reflexivity. Qed.

(** * Further properties of the methods *)

(** ** [add], [get], [remove] together *)

Lemma consistent_count_zero o k :
  consistent o -> _count o = 0 -> get_prop (_inflights o) k = None.
Proof.
  intros Hc H0. destruct (get_prop (_inflights o) k) as [x|] eqn:Hk; [|reflexivity].
  assert (Hpos : 0 < _count o) by (apply (consistent_count_pos o k Hc); eauto).
  lia.
Qed.

(** With one tracked key left, no other key is tracked. *)
Lemma consistent_count_one o key k :
  consistent o -> _count o = 1 ->
  is_Some (get_prop (_inflights o) key) -> k <> key ->
  get_prop (_inflights o) k = None.
Proof.
  intros [Hnd Hc] H1 Hkey Hne.
  destruct (get_prop (_inflights o) k) as [x|] eqn:Hk; [|reflexivity].
  exfalso.
  assert (Hin : In k (tracked_keys (_inflights o))) by (apply tracked_keys_spec; eauto).
  apply (tracked_keys_spec _ _ Hnd) in Hkey.
  destruct (tracked_keys (_inflights o)) as [|a [|b l]]; simpl in *; try lia.
  destruct Hin as [<-|[]], Hkey as [<-|[]]. contradiction.
Qed.

Lemma getStartTime_tracked key x w :
  get_prop (_inflights (this w)) key = Some x ->
  getStartTime key w = (Normal (Some (start x)), w).
Proof.
  intros Hk. unfold getStartTime, bind, inflights_at, ret.
  rewrite (lookup_tracked _ _ _ Hk). reflexivity.
Qed.

Lemma getCheckTime_tracked key x w :
  get_prop (_inflights (this w)) key = Some x ->
  getCheckTime key w = (Normal (Some (lastXTime x)), w).
Proof.
  intros Hk. unfold getCheckTime, get_lastXTime, bind, inflights_at, ret.
  rewrite (lookup_tracked _ _ _ Hk). reflexivity.
Qed.

(** X1. Adding a value under a key under which nothing is found, with a
    [now] that stands or none: [get] gives the value back, the start
    time and the check time are both that time, and every other key
    holds what it held. *)
Theorem add_then_lookup key v now w :
  untracked w key -> stands now ->
  exists w',
    add key v now w = (Normal v, w') /\
    get key w' = (Normal v, w') /\
    getStartTime key w' = (Normal (Some (now_or_clock now w)), w') /\
    getCheckTime key w' = (Normal (Some (now_or_clock now w)), w') /\
    forall k, k <> key ->
      get_prop (_inflights (this w')) k = get_prop (_inflights (this w)) k.
Proof.
  intros Hk Hnow.
  destruct (add_untracked key v now w Hk) as (t & w1 & Ht & Hadd).
  destruct (now_or_Date_now_stands now w Hnow) as (w1' & Ht' & _).
  rewrite Ht in Ht'. injection Ht' as -> ->.
  eexists. split; [exact Hadd|].
  set (w' := with_this _ w1').
  assert (Hget : get_prop (_inflights (this w')) key
                 = Some (mkItem (now_or_clock now w) (now_or_clock now w) v))
    by apply get_prop_set_prop_eq.
  rewrite (get_tracked _ _ _ Hget), (getStartTime_tracked _ _ _ Hget),
          (getCheckTime_tracked _ _ _ Hget).
  repeat split. intros k Hne. apply get_prop_set_prop_ne. congruence.
Qed.

Lemma add_then_lookup_witness :
  untracked fresh_world "test" /\ stands (Some 95) /\
  exists w',
    add "test" (VString "hello") (Some 95) fresh_world = (Normal (VString "hello"), w') /\
    get "test" w' = (Normal (VString "hello"), w') /\
    getStartTime "test" w' = (Normal (Some 95), w') /\
    getCheckTime "test" w' = (Normal (Some 95), w') /\
    forall k, k <> "test"%string ->
      get_prop (_inflights (this w')) k = get_prop (_inflights (this fresh_world)) k.
Proof.
  split; [reflexivity|]. split; [discriminate|].
  apply (add_then_lookup "test" (VString "hello") (Some 95) fresh_world);
    [reflexivity | discriminate].
Defined.

(** X2. In a consistent registry, adding a key under which nothing is
    found and removing it again succeeds and leaves the counter as it
    was and every key with the entry it had, whether or not the removal
    empties the table. *)
Theorem add_then_remove key v now w :
  consistent (this w) -> untracked w key ->
  exists w1 w2,
    add key v now w = (Normal v, w1) /\
    remove key w1 = (Normal tt, w2) /\
    _count (this w2) = _count (this w) /\
    Promise (this w2) = Promise (this w) /\
    forall k, get_prop (_inflights (this w2)) k = get_prop (_inflights (this w)) k.
Proof.
  intros Hc Hk.
  destruct (add_untracked key v now w Hk) as (t & w0 & _ & Hadd).
  apply untracked_get_prop in Hk.
  eexists _, _. split; [exact Hadd|].
  assert (Hpos : 0 <= _count (this w)) by (destruct Hc as [_ ->]; lia).
  split.
  - apply remove_tracked.
    + unfold tracked. simpl. rewrite get_prop_set_prop_eq. eauto.
    + simpl. lia.
  - simpl. split; [lia|]. split; [reflexivity|].
    intros k. destruct (Z.eqb_spec (_count (this w) + 1 - 1) 0) as [E|E].
    + symmetry. apply consistent_count_zero; [exact Hc | lia].
    + destruct (String.eqb_spec key k) as [<-|Hne].
      * rewrite get_prop_set_prop_eq. symmetry. exact Hk.
      * rewrite !get_prop_set_prop_ne by exact Hne. reflexivity.
Qed.

Lemma two_tracked_consistent : consistent (this two_tracked).
Proof.
  split; [|reflexivity]. simpl.
  apply NoDup_cons. split; [|apply NoDup_singleton].
  intros H. apply list_elem_of_singleton in H. discriminate.
Qed.

Lemma add_then_remove_witness :
  consistent (this two_tracked) /\ untracked two_tracked "k" /\
  exists w1 w2,
    add "k" VNull None two_tracked = (Normal VNull, w1) /\
    remove "k" w1 = (Normal tt, w2) /\
    _count (this w2) = _count (this two_tracked) /\
    Promise (this w2) = Promise (this two_tracked) /\
    forall k, get_prop (_inflights (this w2)) k
              = get_prop (_inflights (this two_tracked)) k.
Proof.
  split; [exact two_tracked_consistent|]. split; [reflexivity|].
  apply (add_then_remove "k" VNull None two_tracked two_tracked_consistent).
  reflexivity.
Defined.

(** X3. A removed plain key can be added again: what [remove] leaves
    under the key does not stand in the way of [add], and the counter
    is back where it was. *)
Theorem remove_then_add key v now w :
  plain key -> tracked w key -> 0 < _count (this w) ->
  exists w1 w2,
    remove key w = (Normal tt, w1) /\
    add key v now w1 = (Normal v, w2) /\
    get key w2 = (Normal v, w2) /\
    _count (this w2) = _count (this w).
Proof.
  intros Hp Ht Hpos.
  pose proof (remove_tracked key w Ht Hpos) as Hrem.
  set (w1 := with_this _ w) in Hrem.
  assert (Hk : untracked w1 key).
  { apply plain_untracked; [exact Hp|]. unfold w1. simpl.
    destruct (_count (this w) - 1 =? 0); [reflexivity | apply get_prop_set_prop_eq]. }
  destruct (add_untracked key v now w1 Hk) as (t & w0 & _ & Hadd).
  eexists w1, _. split; [exact Hrem|]. split; [exact Hadd|].
  split.
  - apply (get_tracked key (mkItem t t v)). simpl. apply get_prop_set_prop_eq.
  - simpl. lia.
Qed.

Lemma remove_then_add_witness :
  plain "test" /\ tracked two_tracked "test" /\ 0 < _count (this two_tracked) /\
  exists w1 w2,
    remove "test" two_tracked = (Normal tt, w1) /\
    add "test" (VNumber 3) (Some 12) w1 = (Normal (VNumber 3), w2) /\
    get "test" w2 = (Normal (VNumber 3), w2) /\
    _count (this w2) = _count (this two_tracked).
Proof.
  split; [reflexivity|]. split; [eexists; reflexivity|]. split; [reflexivity|].
  apply (remove_then_add "test" (VNumber 3) (Some 12) two_tracked);
    [reflexivity | eexists; reflexivity | reflexivity].
Defined.

Lemma remove_spares_others key k w :
  tracked w key \/ untracked w key ->
  consistent (this w) -> k <> key ->
  get_prop (_inflights (this (snd (remove key w)))) k
  = get_prop (_inflights (this w)) k.
Proof.
  intros [Ht|Hk] Hc Hne.
  - pose proof (consistent_count_pos _ _ Hc Ht) as Hpos.
    rewrite remove_tracked by assumption. simpl.
    destruct (Z.eqb_spec (_count (this w) - 1) 0) as [E|E].
    + symmetry. apply (consistent_count_one _ key); [exact Hc | lia | exact Ht | exact Hne].
    + apply get_prop_set_prop_ne. congruence.
  - rewrite remove_untracked by exact Hk. reflexivity.
Qed.

(** X4. In a consistent registry, [remove] of a key that is tracked, or
    under which nothing is found, leaves every other key with the entry
    it had, also when it empties the table: the table is only emptied
    when no other key holds an item. *)
Theorem remove_leaves_other_keys key k w :
  tracked w key \/ untracked w key ->
  consistent (this w) -> k <> key ->
  get_prop (_inflights (this (snd (remove key w)))) k
  = get_prop (_inflights (this w)) k.
Proof.
  intros [Ht|Hk] Hc Hne.
  - pose proof (consistent_count_pos _ _ Hc Ht) as Hpos.
    rewrite remove_tracked by assumption. simpl.
    destruct (Z.eqb_spec (_count (this w) - 1) 0) as [E|E].
    + symmetry. apply (consistent_count_one _ key); [exact Hc | lia | exact Ht | exact Hne].
    + apply get_prop_set_prop_ne. congruence.
  - rewrite remove_untracked by exact Hk. reflexivity.
Qed.

Lemma remove_leaves_other_keys_witness :
  tracked two_tracked "test" /\
  consistent (this two_tracked) /\ "foo"%string <> "test"%string /\
  get_prop (_inflights (this (snd (remove "test" two_tracked)))) "foo"
  = Some (mkItem 1700000000000 1700000000000 (VString "bar")).
Proof.
  assert (Ht : tracked two_tracked "test") by (eexists; reflexivity).
  split; [exact Ht|]. split; [exact two_tracked_consistent|]. split; [discriminate|].
  rewrite (remove_leaves_other_keys "test" "foo" two_tracked
             (or_introl Ht) two_tracked_consistent);
    [reflexivity|discriminate].
Defined.

(** A number is found under a key only when [Object.prototype] has it
    as its [lastXTime]. *)
Lemma lookup_number key n w :
  lookup w key = FNumber n -> own_lastXTime (written w) ObjectPrototype = Some n.
Proof.
  unfold lookup, lookup_in. destruct (has_own (_inflights (this w)) key).
  - destruct (get_prop (_inflights (this w)) key); discriminate.
  - unfold inherited.
    destruct (String.eqb key "__proto__"); [discriminate|].
    destruct (is_Object_prototype_function key); [discriminate|].
    destruct (String.eqb key "lastXTime"); [|discriminate].
    destruct (own_lastXTime (written w) ObjectPrototype); [congruence | discriminate].
Qed.

(** Why the key ["lastXTime"] is set apart below.  On a new registry
    nothing is found under it.  After [resetCheckTime("__proto__")] at
    the instant 0, [Object.prototype] has a [lastXTime] of 0, the table
    inherits it, and [get("lastXTime")] and [getStartTime("lastXTime")]
    return that 0 ([x && x.value] is [x] for a falsy [x]) although
    nothing is tracked. *)
Lemma lastXTime_key_inherits_written_time :
  run call_ts [OpGet "lastXTime"; OpGetStartTime "lastXTime";
               OpResetCheckTime (Some "__proto__") None;
               OpGet "lastXTime"; OpGetStartTime "lastXTime"; OpIsEmpty; OpCount]
      at_epoch
  = ([Normal VUndefined; Normal VUndefined; Normal VInflight;
      Normal (VNumber 0); Normal (VNumber 0); Normal (VBoolean true);
      Normal (VNumber 0)],
     mkWorld (Ts.constructor no_module None) [] [] (fun _ => 0) 1
             [(ObjectPrototype, 0)]).
Proof. reflexivity. Qed.

(** X5. In a consistent registry the counter is not negative, and
    [isEmpty] is true exactly when no key has a start time, that is when
    nothing is tracked.  (The state in which a check time of 0 has been
    written on [Object.prototype] is set apart: there the key
    ["lastXTime"] inherits the number 0, which [getStartTime] returns
    as it is.) *)
Theorem isEmpty_iff_nothing_tracked w :
  consistent (this w) ->
  own_lastXTime (written w) ObjectPrototype <> Some 0 ->
  0 <= _count (this w) /\
  (isEmpty w = (Normal true, w) <->
   forall key, getStartTime key w = (Normal None, w)).
Proof.
  intros Hc Hw. split; [destruct Hc as [_ ->]; lia|].
  unfold isEmpty, getStartTime, bind, inflights_at, get_this, ret. split.
  - intros [= H0] key. apply Z.eqb_eq in H0.
    pose proof (consistent_count_zero _ key Hc H0) as Hnone.
    destruct (lookup w key) as [|i|b|n] eqn:Hx; simpl; try reflexivity.
    + apply lookup_item_own in Hx. congruence.
    + apply lookup_number in Hx.
      destruct (Z.eqb_spec n 0) as [->|Hn]; [contradiction | reflexivity].
  - intros Hnone.
    destruct Hc as [Hnd Hc].
    destruct (tracked_keys (_inflights (this w))) as [|a l] eqn:Hl.
    + rewrite Hc. reflexivity.
    + exfalso. assert (Ha : In a (tracked_keys (_inflights (this w)))).
      { rewrite Hl. left. reflexivity. }
      apply (tracked_keys_spec _ _ Hnd) in Ha. destruct Ha as [x Hx].
      specialize (Hnone a). rewrite (lookup_tracked _ _ _ Hx) in Hnone. discriminate.
Qed.

Lemma isEmpty_iff_nothing_tracked_witness :
  consistent (this fresh_world) /\
  0 <= _count (this fresh_world) /\
  (isEmpty fresh_world = (Normal true, fresh_world) <->
   forall key, getStartTime key fresh_world = (Normal None, fresh_world)).
Proof.
  assert (Hc : consistent (this fresh_world)) by (split; [constructor | reflexivity]).
  split; [exact Hc|]. apply (isEmpty_iff_nothing_tracked fresh_world Hc). discriminate.
Defined.

Lemma pending_factory_consistent : preserves registry_consistent pending_factory.
Proof. intros w Hw. exact Hw. Qed.

Lemma resolved_factory_consistent : preserves registry_consistent resolved_factory.
Proof. intros w Hw. exact Hw. Qed.

(** X6. The count invariant holds after every sequence of calls of the
    whole interface, in either implementation ([promise] and
    [resetCheckTime] included), from any consistent registry, when the
    factories themselves keep it and every key that is removed is a
    plain key. *)
Theorem every_call_keeps_the_count impl ops w :
  Forall removes_plain ops ->
  Forall (factory_preserves registry_consistent) ops ->
  consistent (this w) ->
  let w' := snd (run (call_in impl) ops w) in
  NoDup (tracked_keys (_inflights (this w'))) /\
  (forall key, In key (tracked_keys (_inflights (this w'))) <-> tracked w' key) /\
  _count (this w') = Z.of_nat (length (tracked_keys (_inflights (this w')))).
Proof.
  intros Hp Hops Hc w'.
  destruct (run_consistent impl ops w Hp Hops Hc) as [Hnd Hcount].
  split; [apply NoDup_tracked_keys, Hnd|].
  split; [intros key; apply tracked_keys_spec, Hnd | exact Hcount].
Qed.

Lemma every_call_keeps_the_count_witness :
  let w' := snd (run (call_in LibIndexJs)
                   [OpPromise "k" pending_factory; OpAdd "j" VNull (Some 0);
                    OpPromise "toString" throwing_factory;
                    OpPromise "k" throwing_factory; OpResetCheckTime None None;
                    OpAdd "constructor" VNull None;
                    OpRemove "j"; OpRemove "j"; OpPromise "i" thenless_factory]
                   fresh_world) in
  NoDup (tracked_keys (_inflights (this w'))) /\
  (forall key, In key (tracked_keys (_inflights (this w'))) <-> tracked w' key) /\
  _count (this w') = Z.of_nat (length (tracked_keys (_inflights (this w')))).
Proof.
  apply (every_call_keeps_the_count LibIndexJs).
  - repeat (apply List.Forall_cons); try apply List.Forall_nil; try exact I;
      reflexivity.
  - repeat (apply List.Forall_cons); try apply List.Forall_nil; try exact I;
      intros w Hw; exact Hw.
  - split; [constructor | reflexivity].
Defined.

(** ** Times and resets *)

Lemma has_own_keys o o' k : map fst o' = map fst o -> has_own o' k = has_own o k.
Proof.
  revert o'. induction o as [|[k0 s0] o IH]; intros [|[k1 s1] o']; simpl;
    try discriminate; [reflexivity|].
  intros [= -> H]. destruct (String.eqb k0 k); auto.
Qed.

Lemma same_but_check_times_refl o : same_but_check_times o o.
Proof.
  split; [reflexivity|]. intros k.
  destruct (get_prop o k) as [y|]; [|reflexivity].
  exists (lastXTime y). destruct y. reflexivity.
Qed.

(** What is written on a built-in object changes the lookup of no key
    but ["lastXTime"]. *)
Lemma inherited_written l b t k :
  k <> "lastXTime"%string -> inherited ((b, t) :: l) k = inherited l k.
Proof.
  intros Hk. apply String.eqb_neq in Hk. unfold inherited.
  destruct (String.eqb k "__proto__"), (is_Object_prototype_function k);
    try reflexivity.
  rewrite Hk. reflexivity.
Qed.

Lemma lookup_in_same_but_check_times o o' l l' k :
  same_but_check_times o o' -> inherited l' k = inherited l k ->
  same_but_check_time (lookup_in o l k) (lookup_in o' l' k).
Proof.
  intros [Hkeys Hentries] Hinh. unfold lookup_in.
  rewrite (has_own_keys o o' k Hkeys). specialize (Hentries k).
  destruct (has_own o k).
  - destruct (get_prop o k) as [y|]; simpl.
    + destruct Hentries as (t & ->). eauto.
    + rewrite Hentries. reflexivity.
  - rewrite Hinh. destruct (inherited l k); simpl; auto.
    (* nothing inherited is an item *)
    exfalso. unfold inherited in Hinh.
    revert Hinh.
    destruct (String.eqb k "__proto__"); [discriminate|].
    destruct (is_Object_prototype_function k); [discriminate|].
    destruct (String.eqb k "lastXTime"); [|discriminate].
    destruct (own_lastXTime l' ObjectPrototype); discriminate.
Qed.

(** The loop changes check times only, whatever [now] is. *)
Lemma reset_each_entries values now w :
  same_but_check_times values
    (match fst (Ts.reset_each values now w) with
     | Normal props => props
     | Throw _ => values
     end).
Proof.
  destruct (reset_each_returns values now w) as (props & w' & Hrun & _ & _ & _ & Hkeys & _).
  rewrite Hrun. simpl. split; [exact Hkeys|]. clear Hkeys. intros k.
  revert w props w' Hrun. induction values as [|[k0 [x|]] rest IH]; intros w props w'; simpl.
  - intros [= <- _]. reflexivity.
  - unfold bind.
    destruct (now_or_Date_now_frame now w) as (t & w1 & -> & _).
    destruct (reset_each_returns rest now w1) as (props1 & w1' & Hrun1 & _).
    rewrite Hrun1. intros [= <- _]. simpl.
    destruct (String.eqb k0 k); [eauto | exact (IH w1 props1 w1' Hrun1)].
  - unfold bind.
    destruct (reset_each_returns rest now w) as (props1 & w1' & Hrun1 & _).
    rewrite Hrun1. intros [= <- _]. simpl.
    destruct (String.eqb k0 k); [reflexivity | exact (IH w props1 w1' Hrun1)].
Qed.

Lemma reset_item_entries key x now w :
  get_prop (_inflights (this w)) key = Some x ->
  same_but_check_times (_inflights (this w))
    (_inflights (this (snd (reset_item key x now w)))).
Proof.
  intros Hk. unfold reset_item, bind, get_this, put_this.
  destruct (now_or_Date_now_frame now w) as (t & w1 & -> & Hthis & _).
  simpl. rewrite Hthis. split; [apply keys_replace_prop|]. intros k.
  destruct (String.eqb_spec key k) as [<-|Hne].
  - rewrite Hk. exists t. apply get_prop_replace_eq. eapply get_prop_has_own, Hk.
  - rewrite get_prop_replace_ne by exact Hne.
    destruct (get_prop (_inflights (this w)) k) as [y|]; [|reflexivity].
    exists (lastXTime y). destruct y. reflexivity.
Qed.

Lemma reset_item_written key x now w :
  written (snd (reset_item key x now w)) = written w.
Proof.
  unfold reset_item, bind, get_this, put_this.
  pose proof (now_or_Date_now_written now w) as H.
  destruct (now_or_Date_now_frame now w) as (t & w1 & Hnow & _).
  rewrite Hnow in *. exact H.
Qed.

(** What the keyed branch changes: check times in the table, or else
    one check time written on a built-in object. *)
Lemma reset_key_effect key now w :
  same_but_check_times (_inflights (this w)) (_inflights (this (snd (reset_key key now w)))) /\
  (written (snd (reset_key key now w)) = written w
   \/ exists b t, written (snd (reset_key key now w)) = (b, t) :: written w).
Proof.
  unfold reset_key, bind, inflights_at.
  destruct (found_truthy (lookup w key));
    [|split; [apply same_but_check_times_refl | left; reflexivity]].
  destruct (lookup w key) as [|i|b|n] eqn:Hx.
  - split; [apply same_but_check_times_refl | left; reflexivity].
  - split; [apply reset_item_entries, lookup_item_own, Hx|].
    left. apply reset_item_written.
  - simpl. unfold bind.
    pose proof (now_or_Date_now_written now w) as Hwr.
    destruct (now_or_Date_now_frame now w) as (t & w1 & Hnow & Hthis & _).
    rewrite Hnow in *. simpl in *. rewrite Hthis, Hwr.
    split; [apply same_but_check_times_refl | right; eauto].
  - simpl. unfold bind.
    pose proof (now_or_Date_now_written now w) as Hwr.
    destruct (now_or_Date_now_frame now w) as (t & w1 & Hnow & Hthis & _).
    rewrite Hnow in *. simpl in *. rewrite Hthis, Hwr.
    split; [apply same_but_check_times_refl | left; reflexivity].
Qed.

Lemma resetCheckTime_effect impl key now w :
  same_but_check_times (_inflights (this w))
    (_inflights (this (snd (resetCheckTime_in impl key now w)))) /\
  (written (snd (resetCheckTime_in impl key now w)) = written w
   \/ exists b t, written (snd (resetCheckTime_in impl key now w)) = (b, t) :: written w).
Proof.
  destruct (looked_up impl key) as [k|] eqn:Hlook.
  - rewrite (resetCheckTime_looked_up impl key k now w Hlook).
    pose proof (reset_key_effect k now w) as H. unfold bind.
    destruct (reset_key k now w) as [[[]|e] w']; exact H.
  - rewrite (resetCheckTime_not_looked_up impl key now w Hlook).
    pose proof (reset_each_entries (_inflights (this w)) now w) as H.
    unfold Ts.resetCheckTime, bind, get_this, put_this.
    destruct (reset_each_returns (_inflights (this w)) now w)
      as (props & w' & Hrun & _ & _ & _ & _ & _ & Hwr).
    rewrite Hrun in *. simpl in *. split; [exact H | left; exact Hwr].
Qed.

(** For every key but ["lastXTime"], what is found under the key after
    [resetCheckTime] is what was found before, check time apart. *)
Lemma resetCheckTime_lookup impl key now w k :
  k <> "lastXTime"%string ->
  same_but_check_time (lookup w k) (lookup (snd (resetCheckTime_in impl key now w)) k).
Proof.
  intros Hk. destruct (resetCheckTime_effect impl key now w) as [Ht Hw].
  apply lookup_in_same_but_check_times; [exact Ht|].
  destruct Hw as [-> | (b & t & ->)]; [reflexivity | apply inherited_written, Hk].
Qed.

Lemma same_but_check_time_entry x y :
  same_but_check_time x y ->
  and_value y (found_value y) = and_value x (found_value x) /\
  and_number y (found_start y) = and_number x (found_start x).
Proof.
  destruct x as [|i|b|n]; simpl; [intros -> | intros (t & ->) | intros -> | intros ->];
    auto.
Qed.

(** X7. Whatever its arguments, [resetCheckTime] in either
    implementation changes nothing but check times: every key has the
    same start time and the same value as before (so the same keys are
    tracked), and the counter is the same.  (The key ["lastXTime"] is
    set apart: a check time written on [Object.prototype] is what that
    key inherits.) *)
Theorem resetCheckTime_keeps_entries impl key now w k :
  k <> "lastXTime"%string ->
  fst (getStartTime k (snd (resetCheckTime_in impl key now w))) = fst (getStartTime k w) /\
  fst (get k (snd (resetCheckTime_in impl key now w))) = fst (get k w) /\
  _count (this (snd (resetCheckTime_in impl key now w))) = _count (this w).
Proof.
  intros Hk.
  destruct (same_but_check_time_entry _ _ (resetCheckTime_lookup impl key now w k Hk))
    as [Hv Hs].
  unfold getStartTime, get, bind, inflights_at, ret. simpl.
  rewrite Hv, Hs. split; [reflexivity|]. split; [reflexivity|].
  apply resetCheckTime_count.
Qed.

Lemma resetCheckTime_keeps_entries_witness :
  "test"%string <> "lastXTime"%string /\
  fst (getStartTime "test" (snd (resetCheckTime_in SrcIndexTs None None two_tracked)))
  = Normal (Some 1700000000001) /\
  fst (get "test" (snd (resetCheckTime_in SrcIndexTs None None two_tracked)))
  = Normal (VString "hello") /\
  _count (this (snd (resetCheckTime_in SrcIndexTs None None two_tracked))) = 2.
Proof.
  split; [discriminate|].
  destruct (resetCheckTime_keeps_entries SrcIndexTs None None two_tracked "test")
    as (H1 & H2 & H3); [discriminate|].
  rewrite H1, H2, H3. repeat split; reflexivity.
Defined.

(** X8. After [resetCheckTime(key, t)] on a tracked key (the key being
    one that the implementation looks up, and [t] not zero), the check
    time is [t], the time elapsed since the check at a non-zero [now] is
    [now - t], and the time elapsed since the start is what it was, the
    differences being safe integers (beyond 2^53 a difference is
    rounded as doubles are). *)
Theorem resetCheckTime_then_elapsed impl key k t now x w :
  looked_up impl key = Some k ->
  get_prop (_inflights (this w)) k = Some x ->
  t <> 0 -> now <> 0 ->
  safe_integer (now - t) -> safe_integer (now - start x) ->
  exists w',
    resetCheckTime_in impl key (Some t) w = (Normal VInflight, w') /\
    getCheckTime k w' = (Normal (Some t), w') /\
    lastCheckTime k (Some now) w' = (Normal (VNumber (now - t)), w') /\
    elapseCheckTime k (Some now) w' = (Normal (VNumber (now - t)), w') /\
    time k (Some now) w' = (Normal (VNumber (now - start x)), w').
Proof.
  intros Hlook Hk Ht Hnow Hs1 Hs2.
  rewrite (resetCheckTime_looked_up impl key k (Some t) w Hlook).
  destruct (reset_item_resets k x (Some t) w Hk Ht) as (w' & Hrun & Hget & _).
  exists w'. unfold bind at 1. rewrite (reset_key_tracked k x (Some t) w Hk), Hrun.
  simpl in Hget.
  split; [reflexivity|].
  unfold elapseCheckTime.
  rewrite (lastCheckTime_tracked k _ now w' Hget Hnow),
          (time_tracked k _ now w' Hget Hnow),
          (getCheckTime_tracked k _ w' Hget).
  simpl. rewrite (to_double_safe _ Hs1), (to_double_safe _ Hs2). auto.
Qed.

Lemma resetCheckTime_then_elapsed_witness :
  looked_up LibIndexJs (Some "test"%string) = Some "test"%string /\
  get_prop (_inflights (this two_tracked)) "test"
    = Some (mkItem 1700000000001 1700000000001 (VString "hello")) /\
  safe_integer (1700000000100 - (1700000000100 - 5)) /\
  safe_integer (1700000000100 - 1700000000001) /\
  exists w',
    resetCheckTime_in LibIndexJs (Some "test"%string) (Some (1700000000100 - 5)) two_tracked
      = (Normal VInflight, w') /\
    getCheckTime "test" w' = (Normal (Some (1700000000100 - 5)), w') /\
    lastCheckTime "test" (Some 1700000000100) w'
      = (Normal (VNumber (1700000000100 - (1700000000100 - 5))), w') /\
    elapseCheckTime "test" (Some 1700000000100) w'
      = (Normal (VNumber (1700000000100 - (1700000000100 - 5))), w') /\
    time "test" (Some 1700000000100) w'
      = (Normal (VNumber (1700000000100 - 1700000000001)), w').
Proof.
  assert (H1 : safe_integer (1700000000100 - (1700000000100 - 5)))
    by (split; vm_compute; discriminate).
  assert (H2 : safe_integer (1700000000100 - 1700000000001))
    by (split; vm_compute; discriminate).
  split; [reflexivity|]. split; [reflexivity|]. split; [exact H1|]. split; [exact H2|].
  apply (resetCheckTime_then_elapsed LibIndexJs (Some "test"%string) "test"
           (1700000000100 - 5) 1700000000100
           (mkItem 1700000000001 1700000000001 (VString "hello")) two_tracked);
    [reflexivity | reflexivity | discriminate | discriminate | exact H1 | exact H2].
Defined.

(** X9. The queries ([get], [isEmpty], [count], [getStartTime],
    [getCheckTime], [time], [elapseTime], [lastCheckTime],
    [elapseCheckTime]) never throw and change neither the registry nor
    any promise nor the queue; they read the clock at most once, and
    not at all for a key under which nothing is found, for which the
    elapsed times are -1.  For a key under which a member of
    [Object.prototype] is found, [time] and [elapseTime] give NaN. *)
Theorem queries_change_nothing impl op w :
  is_query op = true ->
  (exists v w',
      call_in impl op w = (Normal v, w') /\
      this w' = this w /\ heap w' = heap w /\ jobs w' = jobs w /\
      clock w' = clock w /\ (reads w <= reads w' <= S (reads w))%nat) /\
  (forall key now,
      untracked w key ->
      op = OpTime key now \/ op = OpElapseTime key now \/
      op = OpLastCheckTime key now \/ op = OpElapseCheckTime key now ->
      call_in impl op w = (Normal (VNumber (-1)), w)) /\
  (forall key now b,
      lookup w key = FBuiltin b ->
      op = OpTime key now \/ op = OpElapseTime key now ->
      fst (call_in impl op w) = Normal VNaN).
Proof.
  intros Hq. split; [|split].
  - destruct (query_frame impl op w Hq) as (v & w' & H1 & H2 & H3 & H4 & H5 & H6 & _).
    exists v, w'. repeat split; try assumption; apply H6.
  - intros key now Hk [-> | [-> | [-> | ->]]];
      unfold call_in, call, elapseTime, elapseCheckTime;
      rewrite ?(time_untracked key now w Hk), ?(lastCheckTime_untracked key now w Hk);
      reflexivity.
  - intros key now b Hk [-> | ->];
      unfold call_in, call, elapseTime, time, bind, inflights_at; rewrite Hk; simpl;
      unfold bind;
      destruct (now_or_Date_now_frame now w) as (t & w1 & -> & _); reflexivity.
Qed.

Lemma queries_change_nothing_witness :
  is_query (OpElapseTime "test" None) = true /\
  exists v w',
    call_in SrcIndexTs (OpElapseTime "test" None) two_tracked = (Normal v, w') /\
    this w' = this two_tracked /\ heap w' = heap two_tracked /\
    jobs w' = jobs two_tracked /\ clock w' = clock two_tracked /\
    (reads two_tracked <= reads w' <= S (reads two_tracked))%nat.
Proof.
  split; [reflexivity|].
  apply (proj1 (queries_change_nothing SrcIndexTs (OpElapseTime "test" None)
                  two_tracked eq_refl)).
Defined.

(** ** The hook, run *)

(** X10. What running the hook of a plain key does to the promise that
    [then(remove, remove)] returned.  When the key is tracked (and the
    counter positive), the entry is removed and that promise is
    fulfilled with [undefined].  When nothing is found under the key
    any more (it was removed by hand before the settlement), [remove]
    throws in the hook: the registry is left as it is and that promise
    is rejected with the missing-key assertion error. *)
Theorem hook_run_outcome key arg d obj w :
  plain key ->
  heap w !! d = Some obj -> state obj = Pending ->
  (tracked w key -> 0 < _count (this w) ->
   untracked (run_job (mkJob (RemoveKey key) arg d) w) key /\
   _count (this (run_job (mkJob (RemoveKey key) arg d) w)) = _count (this w) - 1 /\
   exists obj',
     heap (run_job (mkJob (RemoveKey key) arg d) w) !! d = Some obj' /\
     state obj' = Fulfilled VUndefined) /\
  (untracked w key ->
   this (run_job (mkJob (RemoveKey key) arg d) w) = this w /\
   rejected_with (run_job (mkJob (RemoveKey key) arg d) w) d (MissingKeyError key)).
Proof.
  intros Hpk Hd Hst. pose proof (lookup_lt_Some _ _ _ Hd) as Hlt. split.
  - intros Ht Hpos. unfold run_job, run_callback, bind. simpl.
    rewrite (remove_tracked key w Ht Hpos). unfold settle. simpl.
    rewrite Hd, Hst. simpl. split; [|split; [reflexivity|]].
    + apply plain_untracked; [exact Hpk|]. simpl.
      destruct (_count (this w) - 1 =? 0); [reflexivity | apply get_prop_set_prop_eq].
    + eexists. split; [apply list_lookup_insert_eq; exact Hlt | reflexivity].
  - intros Hk. unfold run_job, run_callback, bind. simpl.
    rewrite (remove_untracked key w Hk). unfold settle. simpl.
    rewrite Hd, Hst. simpl. split; [reflexivity|].
    eexists. split; [apply list_lookup_insert_eq; exact Hlt | reflexivity].
Qed.

Lemma hook_run_outcome_witness :
  plain "k" /\
  heap (snd (remove "k" tracked_world)) !! 1%nat = Some (mkPromise GlobalPromise Pending []) /\
  untracked (snd (remove "k" tracked_world)) "k" /\
  rejected_with
    (run_job (mkJob (RemoveKey "k") (VNumber 1) 1) (snd (remove "k" tracked_world)))
    1 (VError "AssertionError" "xflight: removing non-existing item k").
Proof.
  split; [reflexivity|]. split; [reflexivity|]. split; [reflexivity|].
  apply (proj2 (hook_run_outcome "k" (VNumber 1) 1 (mkPromise GlobalPromise Pending [])
                  (snd (remove "k" tracked_world)) eq_refl eq_refl eq_refl)).
  reflexivity.
Defined.

Lemma pending_factory_armed key p : preserves (hook_armed key p) pending_factory.
Proof.
  unfold pending_factory. apply preserves_bind; [apply alloc_armed|].
  intros a. apply preserves_ret.
Qed.

Lemma alloc_plain_hooks C st : preserves plain_hooks (alloc (mkPromise C st [])).
Proof.
  intros w [Hj Hh]. split; simpl; [exact Hj|].
  apply List.Forall_app. split; [exact Hh|]. constructor; constructor.
Qed.

Lemma pending_factory_keeps_plain_hooks : preserves plain_hooks pending_factory.
Proof.
  unfold pending_factory. apply preserves_bind; [apply alloc_plain_hooks|].
  intros a. apply preserves_ret.
Qed.

(** X11. The hook removes by key, not by promise.  A promise is
    registered for a plain key, the key is removed by hand, and a second
    promise is registered for the same key: when the first promise
    settles, its hook removes the entry of the second, whose own
    settlement is still to come.  (The hooks that wait are hooks of
    plain keys.) *)
Theorem stale_hook_removes_newer_entry impl key f1 p1 f2 p2 w wf1 wf2 :
  plain key ->
  untracked w key ->
  f1 w = (Normal (VPromise p1), wf1) ->
  is_Some (heap wf1 !! p1) -> untracked wf1 key -> consistent (this wf1) ->
  plain_hooks wf1 ->
  f2 (snd (remove key (snd (promise_in impl key f1 w)))) = (Normal (VPromise p2), wf2) ->
  is_Some (heap wf2 !! p2) -> untracked wf2 key ->
  preserves registry_consistent f2 -> preserves (hook_armed key p1) f2 ->
  preserves plain_hooks f2 ->
  exists w3,
    run (call_in impl) [OpPromise key f1; OpRemove key; OpPromise key f2] w
    = ([Normal (VPromise p1); Normal VUndefined; Normal (VPromise p2)], w3) /\
    get key w3 = (Normal (VPromise p2), w3) /\
    forall s,
      get key (drain (settle p1 s w3)) = (Normal VUndefined, drain (settle p1 s w3)) /\
      untracked (drain (settle p1 s w3)) key.
Proof.
  intros Hpk Hk Hf1 Hp1 Hkf1 Hc Hph Hf2 Hp2 Hkf2 Hf2c Hf2a Hf2p.
  destruct (promise_in_registers impl key f1 p1 w wf1 Hk Hf1 Hp1 Hkf1)
    as (x & w1 & Hrun1 & Hx & _ & Harmed & _ & Hc1 & Hph1).
  rewrite Hrun1 in Hf2. simpl in Hf2. specialize (Hc1 Hc). specialize (Hph1 Hpk Hph).
  assert (Ht1 : tracked w1 key) by (exists x; exact Hx).
  pose proof (consistent_count_pos _ _ Hc1 Ht1) as Hpos.
  pose proof (remove_tracked key w1 Ht1 Hpos) as Hrem.
  pose proof (remove_plain_consistent key w1 Hpk Hc1) as Hc2.
  pose proof (remove_armed key p1 key w1 Harmed) as Ha2.
  pose proof (remove_untracks key w1 Hpk Hc1) as Hk2.
  assert (Hph2 : plain_hooks (snd (remove key w1))).
  { destruct (remove_frame key w1) as (Hh & Hj & _).
    apply (plain_hooks_frame w1); assumption. }
  destruct (remove key w1) as [r w2]. simpl in *. injection Hrem as -> Hw2.
  destruct (promise_in_registers impl key f2 p2 w2 wf2 Hk2 Hf2 Hp2 Hkf2)
    as (x2 & w3 & Hrun2 & Hx2 & Hv2 & _ & _ & _).
  pose proof (call_consistent impl (OpPromise key f2) I Hf2c w2 Hc2) as Hc3.
  pose proof (call_armed key p1 impl (OpPromise key f2) Hf2a w2 Ha2) as Ha3.
  pose proof (call_plain_hooks impl (OpPromise key f2) Hpk Hf2p w2 Hph2) as Hph3.
  change (call_in impl (OpPromise key f2) w2) with (promise_in impl key f2 w2)
    in Hc3, Ha3, Hph3.
  rewrite Hrun2 in Hc3, Ha3, Hph3. simpl in Hc3, Ha3, Hph3.
  exists w3. split; [|split].
  - cbn [run].
    change (call_in impl (OpPromise key f1) w) with (promise_in impl key f1 w).
    rewrite Hrun1. cbv beta iota.
    assert (Hcall : (remove key ;;; ret VUndefined) w1 = (Normal VUndefined, w2)).
    { unfold bind. rewrite (remove_tracked key w1 Ht1 Hpos), Hw2. reflexivity. }
    rewrite Hcall. cbv beta iota. rewrite Hrun2. reflexivity.
  - rewrite (get_tracked key x2 w3 Hx2), Hv2. reflexivity.
  - intros s.
    destruct (settle_drain_untracks key p1 s w3 Hpk Hph3 Hc3 Ha3) as (Hgone & _).
    split; [apply get_untracked, Hgone | exact Hgone].
Qed.

Lemma stale_hook_removes_newer_entry_witness :
  exists w3,
    run (call_in SrcIndexTs)
      [OpPromise "k" pending_factory; OpRemove "k"; OpPromise "k" pending_factory]
      fresh_world
    = ([Normal (VPromise 0); Normal VUndefined; Normal (VPromise 2)], w3) /\
    get "k" w3 = (Normal (VPromise 2), w3) /\
    forall s,
      get "k" (drain (settle 0 s w3)) = (Normal VUndefined, drain (settle 0 s w3)) /\
      untracked (drain (settle 0 s w3)) "k".
Proof.
  apply (stale_hook_removes_newer_entry SrcIndexTs "k" pending_factory 0
           pending_factory 2 fresh_world (snd (pending_factory fresh_world))
           (snd (pending_factory
                   (snd (remove "k" (snd (Ts.promise "k" pending_factory fresh_world))))))).
  - reflexivity.
  - reflexivity.
  - reflexivity.
  - eexists. reflexivity.
  - reflexivity.
  - split; [constructor | reflexivity].
  - exact pending_factory_plain_hooks.
  - reflexivity.
  - eexists. reflexivity.
  - reflexivity.
  - exact pending_factory_consistent.
  - apply pending_factory_armed.
  - exact pending_factory_keeps_plain_hooks.
Defined.

(** ** [promise], further *)

(** X12. In [lib/index.js] the factory's result only has to be truthy
    with a truthy [then].  For an object whose [then] is truthy but not
    callable, on a key under which nothing is found, the entry is added
    before [then] is called: the call returns a promise rejected with
    the type error, but the object stays tracked under the key, the
    counter one up, with no hook recorded or due to remove it. *)
Theorem js_promise_keeps_uncallable_then key f t w wf :
  untracked w key ->
  f w = (Normal (VObject t), wf) ->
  truthy t = true ->
  untracked wf key ->
  exists p w1,
    Js.promise key f w = (Normal (VPromise p), w1) /\
    rejected_with w1 p not_a_function /\
    get key w1 = (Normal (VObject t), w1) /\
    _count (this w1) = _count (this wf) + 1 /\
    jobs w1 = jobs wf /\
    heap w1 = heap wf ++ [mkPromise (Promise (this wf)) (Rejected not_a_function) []] /\
    ((forall q, ~ hook_armed key q wf) -> forall q, ~ hook_armed key q w1).
Proof.
  intros Hk Hf Ht Hkf.
  destruct (add_untracked key (VObject t) None wf Hkf) as (t0 & w0 & Hnow & Hadd).
  destruct (now_or_Date_now_frame None wf) as (t0' & w0' & Hnow' & _ & Hheap & Hjobs & _).
  rewrite Hnow in Hnow'. injection Hnow' as <- <-.
  eexists _, _. split.
  { apply untracked_falsy in Hk. run_monad. rewrite Hk. run_monad. rewrite Hf.
    change (truthy (VObject t) && then_truthy (VObject t)) with (truthy t).
    rewrite Ht, Hadd. reflexivity. }
  simpl. rewrite Hheap, Hjobs.
  split.
  { exists (mkPromise (Promise (this wf)) (Rejected not_a_function) []).
    split; [|reflexivity]. simpl.
    rewrite lookup_app_r by lia. rewrite Nat.sub_diag. reflexivity. }
  split.
  { apply (get_tracked key (mkItem t0 t0 (VObject t))). simpl.
    apply get_prop_set_prop_eq. }
  split; [reflexivity|]. split; [reflexivity|]. split; [reflexivity|].
  intros Hnone q [(obj & d & Hq & Hst & Hin)|(arg & d & Hin)].
  - simpl in Hq. rewrite ?Hheap in Hq.
    destruct (decide (q < length (heap wf))%nat) as [Hlt|Hge].
    + rewrite lookup_app_l in Hq by exact Hlt.
      apply (Hnone q). left. exists obj, d. auto.
    + rewrite lookup_app_r in Hq by lia.
      destruct (q - length (heap wf))%nat; simpl in Hq; [|discriminate].
      injection Hq as <-. discriminate.
  - simpl in Hin. rewrite ?Hjobs in Hin. apply (Hnone q). right. eauto.
Qed.

Lemma js_promise_keeps_uncallable_then_witness :
  untracked fresh_world "k" /\
  thenless_factory fresh_world = (Normal (VObject (VNumber 1)), fresh_world) /\
  exists p w1,
    Js.promise "k" thenless_factory fresh_world = (Normal (VPromise p), w1) /\
    rejected_with w1 p not_a_function /\
    get "k" w1 = (Normal (VObject (VNumber 1)), w1) /\
    _count (this w1) = _count (this fresh_world) + 1 /\
    jobs w1 = jobs fresh_world /\
    heap w1 = heap fresh_world
              ++ [mkPromise (Promise (this fresh_world)) (Rejected not_a_function) []] /\
    ((forall q, ~ hook_armed "k" q fresh_world) -> forall q, ~ hook_armed "k" q w1).
Proof.
  split; [reflexivity|]. split; [reflexivity|].
  apply (js_promise_keeps_uncallable_then "k" thenless_factory (VNumber 1)
           fresh_world fresh_world); reflexivity.
Defined.

Lemma get_on_new_registry o clock k :
  _inflights o = [] -> get k (new_world o clock) = (Normal VUndefined, new_world o clock).
Proof.
  intros Hi. unfold get, bind, inflights_at, ret, lookup, lookup_in. simpl. rewrite Hi.
  simpl. unfold inherited. simpl.
  destruct (String.eqb k "__proto__"); [reflexivity|].
  destruct (is_Object_prototype_function k); [reflexivity|].
  destruct (String.eqb k "lastXTime"); reflexivity.
Qed.

(** X13. A new registry, in either file: it is empty ([isEmpty] true,
    [count] 0, no key tracked, [get] giving [undefined] for every key)
    and consistent; under every key that [Object.prototype] has no
    member for, nothing is found, and for such a key the promise that
    [promise] returns for a throwing factory is made by the Promise
    implementation that was supplied, whatever is installed; by
    bluebird when none was supplied and bluebird is installed, even
    with aveazul installed too; and otherwise by aveazul in
    [src/index.ts] when that is installed, and by the platform's
    Promise in every other case. *)
Theorem new_registry impl installed xPromise clock key e :
  isEmpty (new_world (constructor_in impl installed xPromise) clock)
  = (Normal true, new_world (constructor_in impl installed xPromise) clock) /\
  count (new_world (constructor_in impl installed xPromise) clock)
  = (Normal 0, new_world (constructor_in impl installed xPromise) clock) /\
  (forall k, ~ tracked (new_world (constructor_in impl installed xPromise) clock) k) /\
  (forall k, get k (new_world (constructor_in impl installed xPromise) clock)
             = (Normal VUndefined, new_world (constructor_in impl installed xPromise) clock)) /\
  (forall k, inherited [] k = FUndefined ->
             untracked (new_world (constructor_in impl installed xPromise) clock) k) /\
  consistent (constructor_in impl installed xPromise) /\
  (inherited [] key = FUndefined ->
   exists w1,
    promise_in impl key (throw e) (new_world (constructor_in impl installed xPromise) clock)
    = (Normal (VPromise 0), w1) /\
    heap w1 !! 0%nat
    = Some (mkPromise
              (match xPromise with
               | Some P => P
               | None =>
                   if installed "bluebird"%string then Required "bluebird"
                   else match impl with
                        | SrcIndexTs =>
                            if installed "aveazul"%string then Required "aveazul"
                            else GlobalPromise
                        | LibIndexJs => GlobalPromise
                        end
               end)
              (Rejected e) [])).
Proof.
  assert (Hempty : _inflights (constructor_in impl installed xPromise) = []
                   /\ _count (constructor_in impl installed xPromise) = 0)
    by (destruct impl; split; reflexivity).
  destruct Hempty as [Hi Hc].
  assert (Hun : forall k, inherited [] k = FUndefined ->
            untracked (new_world (constructor_in impl installed xPromise) clock) k).
  { intros k Hk. unfold untracked, lookup, lookup_in. simpl. rewrite Hi. exact Hk. }
  split; [unfold isEmpty, bind, get_this, ret; simpl; rewrite Hc; reflexivity|].
  split; [unfold count, bind, get_this, ret; simpl; rewrite Hc; reflexivity|].
  split; [intros k [x Hx]; simpl in Hx; rewrite Hi in Hx; discriminate|].
  split; [intros k; apply get_on_new_registry, Hi|].
  split; [exact Hun|].
  split; [split; [rewrite Hi; constructor | rewrite Hi, Hc; reflexivity]|].
  intros Hkey.
  pose proof (promise_in_catches impl key (throw e) e _ _
                (untracked_falsy _ _ (Hun key Hkey)) eq_refl) as Hrun.
  eexists. split.
  - exact Hrun.
  - simpl. f_equal. f_equal.
    destruct impl; simpl;
      unfold Ts.constructor, Js.constructor, Js.module_Promise, optionalRequire; simpl;
      destruct xPromise; try reflexivity;
      destruct (installed "bluebird"%string); try reflexivity;
      destruct (installed "aveazul"%string); reflexivity.
Qed.

(** X14. What [promise] registers.  For a factory that returns a promise
    of the heap, on a key under which nothing is found: the entry holds
    that promise, its start time and check time are one reading of the
    clock, taken after the factory has run; one promise is allocated
    (the one [then] returns); and every other key holds what the
    factory left there. *)
Theorem promise_entry impl key f p w wf :
  untracked w key ->
  f w = (Normal (VPromise p), wf) ->
  is_Some (heap wf !! p) ->
  untracked wf key ->
  exists w1,
    promise_in impl key f w = (Normal (VPromise p), w1) /\
    get_prop (_inflights (this w1)) key
    = Some (mkItem (clock wf (reads wf)) (clock wf (reads wf)) (VPromise p)) /\
    reads w1 = S (reads wf) /\
    length (heap w1) = S (length (heap wf)) /\
    Promise (this w1) = Promise (this wf) /\
    forall k, k <> key ->
      get_prop (_inflights (this w1)) k = get_prop (_inflights (this wf)) k.
Proof.
  intros Hk Hf Hp Hkf.
  destruct (add_untracked key (VPromise p) None wf Hkf) as (t & w0 & Hnow & Hadd).
  simpl in Hnow. unfold Date_now in Hnow. injection Hnow as <- <-.
  set (wa := with_this _ _) in Hadd.
  assert (Hthen : exists w1,
             then_ (VPromise p) (RemoveKey key) (RemoveKey key) wa
             = (Normal (VPromise (length (heap wa))), w1) /\
             this w1 = this wa /\ reads w1 = reads wa /\
             length (heap w1) = S (length (heap wa))).
  { destruct Hp as [obj Hobj]. unfold then_.
    change (heap wa) with (heap wf). rewrite Hobj.
    destruct (state obj); eexists; (split; [reflexivity|]); simpl;
      rewrite ?length_insert, length_app; simpl; repeat split; lia. }
  destruct Hthen as (w1 & Hthen & Hthis & Hreads & Hlen).
  exists w1. split.
  { apply untracked_falsy in Hk.
    destruct impl; simpl; run_monad; rewrite Hk; run_monad; rewrite Hf; simpl;
      run_monad; rewrite Hadd, Hthen; reflexivity. }
  rewrite Hthis, Hreads, Hlen. simpl.
  split; [apply get_prop_set_prop_eq|]. repeat split.
  intros k Hne. apply get_prop_set_prop_ne. congruence.
Qed.

Lemma promise_entry_witness :
  untracked two_tracked "k" /\
  pending_factory two_tracked = (Normal (VPromise 0), snd (pending_factory two_tracked)) /\
  exists w1,
    promise_in LibIndexJs "k" pending_factory two_tracked = (Normal (VPromise 0), w1) /\
    get_prop (_inflights (this w1)) "k"
    = Some (mkItem 1700000000002 1700000000002 (VPromise 0)) /\
    reads w1 = 3%nat /\
    length (heap w1) = 2%nat /\
    Promise (this w1) = GlobalPromise /\
    forall k, k <> "k"%string ->
      get_prop (_inflights (this w1)) k = get_prop (_inflights (this two_tracked)) k.
Proof.
  split; [reflexivity|]. split; [reflexivity|].
  apply (promise_entry LibIndexJs "k" pending_factory 0 two_tracked
           (snd (pending_factory two_tracked)));
    [reflexivity | reflexivity | eexists; reflexivity | reflexivity].
Defined.

(** X15. A factory that returns a promise that is already settled, on a
    plain key: the promise is registered all the same, and the hook is
    due at once, as the last job of the queue, with the promise's value
    or reason; the key stays tracked until the queue runs, and nothing
    is found under it after.  (The hooks that wait are hooks of plain
    keys.) *)
Theorem promise_with_settled_promise impl key f p obj s w wf :
  plain key ->
  untracked w key ->
  f w = (Normal (VPromise p), wf) ->
  heap wf !! p = Some obj -> state obj = settled s ->
  untracked wf key -> consistent (this wf) -> plain_hooks wf ->
  exists w1,
    promise_in impl key f w = (Normal (VPromise p), w1) /\
    get key w1 = (Normal (VPromise p), w1) /\
    jobs w1 = jobs wf ++ [job_of s (mkReaction (RemoveKey key) (RemoveKey key)
                                      (length (heap wf)))] /\
    untracked (drain w1) key /\ jobs (drain w1) = [].
Proof.
  intros Hpk Hk Hf Hp Hst Hkf Hc Hph.
  destruct (promise_in_registers impl key f p w wf Hk Hf (ex_intro _ obj Hp) Hkf)
    as (x & w1 & Hrun & Hx & Hv & _ & _ & Hc1 & Hph1).
  assert (Hjobs : jobs w1 = jobs wf ++ [job_of s (mkReaction (RemoveKey key) (RemoveKey key)
                                                    (length (heap wf)))]).
  { destruct (add_untracked key (VPromise p) None wf Hkf) as (t & w0 & Hnow & Hadd).
    simpl in Hnow. unfold Date_now in Hnow. injection Hnow as <- <-.
    apply untracked_falsy in Hk. revert Hrun.
    destruct impl; simpl; run_monad; rewrite Hk; run_monad; rewrite Hf; simpl;
      run_monad; rewrite Hadd; unfold then_; simpl; rewrite Hp, Hst;
      destruct s; simpl; intros [= <-]; reflexivity. }
  exists w1. split; [exact Hrun|].
  split; [rewrite (get_tracked key x w1 Hx), Hv; reflexivity|].
  split; [exact Hjobs|].
  destruct (run_jobs_fires key (pending_work w1) w1) as [Hgone _].
  - exact Hpk.
  - exact (Hph1 Hpk Hph).
  - reflexivity.
  - exact (Hc1 Hc).
  - right. rewrite Hjobs. destruct s; eexists _, _; apply in_or_app; right; left; reflexivity.
  - split; [exact Hgone | apply drain_empties].
Qed.

Lemma promise_with_settled_promise_witness :
  plain "k" /\
  untracked fresh_world "k" /\
  resolved_factory fresh_world = (Normal (VPromise 0), snd (resolved_factory fresh_world)) /\
  exists w1,
    promise_in SrcIndexTs "k" resolved_factory fresh_world = (Normal (VPromise 0), w1) /\
    get "k" w1 = (Normal (VPromise 0), w1) /\
    jobs w1 = [mkJob (RemoveKey "k") (VNumber 42) 1] /\
    untracked (drain w1) "k" /\ jobs (drain w1) = [].
Proof.
  split; [reflexivity|]. split; [reflexivity|]. split; [reflexivity|].
  apply (promise_with_settled_promise SrcIndexTs "k" resolved_factory 0
           (mkPromise GlobalPromise (Fulfilled (VNumber 42)) []) (Success (VNumber 42))
           fresh_world (snd (resolved_factory fresh_world)));
    try reflexivity.
  - split; [constructor | reflexivity].
  - split; simpl; repeat constructor.
Defined.

(** X16. From registration to settlement.  A promise is registered for
    a plain key; then come any calls of the interface (on plain keys
    where they register or remove, with factories that keep the count
    invariant and the hooks) and any settlements of other promises, in
    any order, while the queue waits; then the promise settles, either
    way, and the queue runs.  The key was tracked, and now nothing is
    found under it; the queue is empty and the registry consistent. *)
Theorem registered_then_settled impl key f p w wf events s :
  plain key ->
  untracked w key -> f w = (Normal (VPromise p), wf) ->
  is_Some (heap wf !! p) -> untracked wf key -> consistent (this wf) ->
  plain_hooks wf ->
  Forall (well_behaved key p) events ->
  tracked (snd (promise_in impl key f w)) key /\
  untracked
    (drain (settle p s (fold_left (happen impl) events (snd (promise_in impl key f w)))))
    key /\
  jobs
    (drain (settle p s (fold_left (happen impl) events (snd (promise_in impl key f w)))))
  = [] /\
  consistent
    (this (drain (settle p s
       (fold_left (happen impl) events (snd (promise_in impl key f w)))))).
Proof.
  intros Hpk Hk Hf Hp Hkf Hc Hph Hevs.
  destruct (promise_in_registers impl key f p w wf Hk Hf Hp Hkf)
    as (x & w1 & Hrun & Hx & _ & Harmed & _ & Hc1 & Hph1).
  rewrite Hrun. simpl. split; [exists x; exact Hx|].
  destruct (events_keep_hook impl key p events w1 Hevs (Hc1 Hc) Harmed (Hph1 Hpk Hph))
    as (Hc2 & Ha2 & Hph2).
  destruct (settle_drain_untracks key p s _ Hpk Hph2 Hc2 Ha2) as (H1 & H2 & H3). auto.
Qed.

Lemma registered_then_settled_witness :
  plain "k" /\
  tracked (snd (promise_in LibIndexJs "k" pending_factory fresh_world)) "k" /\
  untracked
    (drain (settle 0 (Failure (VError "Error" "late"))
       (fold_left (happen LibIndexJs)
          [Call (OpAdd "j" VNull None); Call (OpPromise "k" number_factory);
           Settle 1 (Success VNull); Call (OpResetCheckTime None None);
           Call (OpPromise "i" pending_factory); Call (OpAdd "toString" VNull None);
           Call (OpRemove "j")]
          (snd (promise_in LibIndexJs "k" pending_factory fresh_world)))))
    "k".
Proof.
  split; [reflexivity|].
  destruct (registered_then_settled LibIndexJs "k" pending_factory 0 fresh_world
              (snd (pending_factory fresh_world))
              [Call (OpAdd "j" VNull None); Call (OpPromise "k" number_factory);
               Settle 1 (Success VNull); Call (OpResetCheckTime None None);
               Call (OpPromise "i" pending_factory); Call (OpAdd "toString" VNull None);
               Call (OpRemove "j")]
              (Failure (VError "Error" "late")))
    as (H1 & H2 & _).
  - reflexivity.
  - reflexivity.
  - reflexivity.
  - eexists. reflexivity.
  - reflexivity.
  - split; [constructor | reflexivity].
  - exact pending_factory_plain_hooks.
  - repeat (apply List.Forall_cons); try apply List.Forall_nil; simpl; try exact I.
    all: split; [first [exact I | reflexivity]|];
      split; [first [exact I | apply preserves_ret | exact pending_factory_consistent]|];
      split;
        first [exact I | apply preserves_ret | apply pending_factory_armed
              | exact pending_factory_keeps_plain_hooks].
  - split; [exact H1 | exact H2].
Defined.

(** ** One key and the others *)

Lemma add_lookup_others key k v now w :
  k <> key -> lookup (snd (add k v now w)) key = lookup w key.
Proof.
  intros Hne.
  destruct (lookup w k) eqn:Hx.
  - destruct (add_untracked k v now w Hx) as (t & w0 & Hnow & ->).
    pose proof (now_or_Date_now_written now w) as Hwr. rewrite Hnow in Hwr.
    unfold lookup. simpl in *. rewrite Hwr.
    apply lookup_in_set_prop_ne. exact Hne.
  - rewrite add_found by (rewrite Hx; discriminate). reflexivity.
  - rewrite add_found by (rewrite Hx; discriminate). reflexivity.
  - rewrite add_found by (rewrite Hx; discriminate). reflexivity.
Qed.

Lemma inherited_entry l key :
  key <> "lastXTime"%string ->
  and_value (inherited l key) (found_value (inherited l key)) = VUndefined /\
  and_number (inherited l key) (found_start (inherited l key)) = None.
Proof.
  intros Hk. apply String.eqb_neq in Hk. unfold inherited.
  destruct (String.eqb key "__proto__"); [auto|].
  destruct (is_Object_prototype_function key); [auto|].
  rewrite Hk. auto.
Qed.

(** X17. A key is not disturbed by what happens to other keys.  In a
    consistent registry, a call that is no [promise] call and neither
    adds nor removes the key (an [add] of another key, a [remove] of
    another, plain key, any query, any [resetCheckTime]) leaves the
    key's value and start time as they were: a tracked promise stays
    the one that [promise] and [get] return.  (The key ["lastXTime"]
    is set apart, as what it inherits can be written by
    [resetCheckTime].) *)
Theorem other_calls_spare_a_key impl key op w :
  key <> "lastXTime"%string ->
  consistent (this w) -> spares key op ->
  fst (get key (snd (call_in impl op w))) = fst (get key w) /\
  fst (getStartTime key (snd (call_in impl op w))) = fst (getStartTime key w).
Proof.
  intros Hkey Hc Hop.
  assert (Hsame : forall w',
             lookup w' key = lookup w key ->
             fst (get key w') = fst (get key w) /\
             fst (getStartTime key w') = fst (getStartTime key w)).
  { intros w' H. unfold get, getStartTime, bind, inflights_at, ret. simpl.
    rewrite H. auto. }
  destruct op as [k f|k v now|k|k| | |k|k now|k now|k|k now|k now|k now];
    simpl in Hop; try contradiction.
  1: { apply Hsame. apply add_lookup_others, Hop. }
  2: { destruct Hop as [Hne Hpk].
       assert (Hw : snd (call_in impl (OpRemove k) w) = snd (remove k w)).
       { unfold call_in, call, bind. destruct (remove k w) as [[[]|e] w']; reflexivity. }
       rewrite Hw.
       destruct (plain_tracked_or_untracked k w Hpk) as [Ht|Hk].
       - pose proof (consistent_count_pos _ _ Hc Ht) as Hpos.
         rewrite remove_tracked by assumption.
         destruct (Z.eqb_spec (_count (this w) - 1) 0) as [E|E].
         + (* the table is emptied: the key held no item *)
           assert (Hnone : get_prop (_inflights (this w)) key = None).
           { apply (consistent_count_one _ k); [exact Hc | lia | exact Ht | congruence]. }
           destruct (inherited_entry (written w) key Hkey) as [Hv Hs].
           unfold get, getStartTime, bind, inflights_at, ret, lookup, lookup_in. simpl.
           rewrite Hv, Hs, Hnone.
           destruct (has_own (_inflights (this w)) key); [auto|].
           rewrite Hv, Hs. auto.
         + apply Hsame. unfold lookup. simpl. apply lookup_in_set_prop_ne. congruence.
       - rewrite remove_untracked by exact Hk. auto. }
  10: { destruct (same_but_check_time_entry _ _
                    (resetCheckTime_lookup impl k now w key Hkey)) as [Hv Hs].
        unfold call_in, call.
        unfold get, getStartTime, bind, inflights_at, ret. simpl.
        rewrite Hv, Hs. auto. }
  all: apply Hsame;
    match goal with
    | |- context [call_in ?i ?op ?w0] =>
        destruct (query_frame i op w0 eq_refl)
          as (v & w' & Hrun & Hthis & _ & _ & _ & _ & Hwr);
        rewrite Hrun; simpl; apply lookup_same; assumption
    end.
Qed.

Lemma other_calls_spare_a_key_witness :
  consistent (this tracked_world) /\
  spares "k" (OpAdd "j" VNull None) /\
  fst (get "k" (snd (call_in SrcIndexTs (OpAdd "j" VNull None) tracked_world)))
  = Normal (VPromise 0).
Proof.
  assert (Hc : consistent (this tracked_world)).
  { split; [|reflexivity]. simpl. apply NoDup_singleton. }
  split; [exact Hc|]. split; [discriminate|].
  rewrite (proj1 (other_calls_spare_a_key SrcIndexTs "k" (OpAdd "j" VNull None)
                    tracked_world ltac:(discriminate) Hc ltac:(discriminate))).
  reflexivity.
Defined.

(** X18. The empty key.  [src/index.ts] tests [if (key)], so
    [resetCheckTime("", t)] is taken as a call without key: with [t]
    not zero, every tracked entry gets the check time [t].
    [lib/index.js] looks the empty key up like any other and leaves
    every other key as it was. *)
Theorem resetCheckTime_empty_key t w :
  t <> 0 ->
  (exists w',
      Ts.resetCheckTime (Some ""%string) (Some t) w = (Normal VInflight, w') /\
      forall k,
        match get_prop (_inflights (this w)) k with
        | Some x => get_prop (_inflights (this w')) k = Some (set_lastXTime x t)
        | None => get_prop (_inflights (this w')) k = None
        end) /\
  (exists w',
      Js.resetCheckTime (Some ""%string) (Some t) w = (Normal VInflight, w') /\
      forall k, k <> ""%string ->
        get_prop (_inflights (this w')) k = get_prop (_inflights (this w)) k).
Proof.
  intros Ht. split.
  - unfold Ts.resetCheckTime. simpl. unfold bind, get_this, put_this.
    rewrite (reset_each_given _ t w Ht).
    eexists. split; [reflexivity|]. simpl.
    intros k. rewrite get_prop_reset_to.
    destruct (get_prop (_inflights (this w)) k) as [x|]; reflexivity.
  - change (Js.resetCheckTime (Some ""%string) (Some t) w)
      with (resetCheckTime_in LibIndexJs (Some ""%string) (Some t) w).
    rewrite (resetCheckTime_looked_up LibIndexJs (Some ""%string) ""%string (Some t) w eq_refl).
    unfold bind.
    destruct (get_prop (_inflights (this w)) "") as [x|] eqn:Hk.
    + rewrite (reset_key_tracked ""%string x (Some t) w Hk).
      destruct (reset_item_resets ""%string x (Some t) w Hk Ht)
        as (w' & -> & _ & Hothers & _).
      exists w'. split; [reflexivity | exact Hothers].
    + rewrite (reset_key_untracked ""%string (Some t) w)
        by (apply plain_untracked; [reflexivity | exact Hk]).
      exists w. split; [reflexivity | auto].
Qed.

Lemma resetCheckTime_empty_key_witness :
  7 <> 0 /\
  fst (run call_ts [OpResetCheckTime (Some ""%string) (Some 7);
                    OpGetCheckTime "foo"; OpGetCheckTime "test"] two_tracked)
  = [Normal VInflight; Normal (VNumber 7); Normal (VNumber 7)] /\
  exists w',
    Ts.resetCheckTime (Some ""%string) (Some 7) two_tracked = (Normal VInflight, w') /\
    get_prop (_inflights (this w')) "foo"
    = Some (mkItem 1700000000000 7 (VString "bar")).
Proof.
  split; [discriminate|]. split; [reflexivity|].
  destruct (proj1 (resetCheckTime_empty_key 7 two_tracked ltac:(discriminate)))
    as (w' & Hrun & Hget).
  exists w'. split; [exact Hrun|]. exact (Hget "foo"%string).
Defined.

(** ** Keys that name a member of [Object.prototype] *)

(** X23. A key under which a member of [Object.prototype] is found (no
    own property being in the way) is taken for a key that has an
    entry, though none was added: [promise] returns [undefined] without
    running the factory and changes nothing; [add] throws the
    duplicate-key error; [get] and [getStartTime] give [undefined];
    [time] gives NaN; and [remove] passes its first assertion, so that
    it throws the list-is-empty error when the counter is zero, and
    otherwise returns with the counter one down. *)
Theorem inherited_member_taken_for_entry impl key b w :
  lookup w key = FBuiltin b ->
  (forall factory, promise_in impl key factory w = (Normal VUndefined, w)) /\
  (forall v now, add key v now w = (Throw (DuplicateKeyError key), w)) /\
  get key w = (Normal VUndefined, w) /\
  getStartTime key w = (Normal None, w) /\
  (forall now, fst (time key now w) = Normal VNaN) /\
  (_count (this w) <= 0 ->
   remove key w = (Throw (InternalConsistencyError key (_count (this w))), w)) /\
  (0 < _count (this w) ->
   exists w',
     remove key w = (Normal tt, w') /\ _count (this w') = _count (this w) - 1 /\
     forall k, is_Some (get_prop (_inflights (this w')) k) ->
               get_prop (_inflights (this w')) k = get_prop (_inflights (this w)) k).
Proof.
  intros Hx.
  assert (Hfound : lookup w key <> FUndefined) by (rewrite Hx; discriminate).
  split; [|split; [|split; [|split; [|split; [|split]]]]].
  - intros factory. rewrite promise_in_truthy by (rewrite Hx; reflexivity).
    rewrite Hx. reflexivity.
  - intros v now. apply add_found, Hfound.
  - unfold get, bind, inflights_at, ret. rewrite Hx. reflexivity.
  - unfold getStartTime, bind, inflights_at, ret. rewrite Hx. reflexivity.
  - intros now. unfold time, bind, inflights_at. rewrite Hx. simpl. unfold bind.
    destruct (now_or_Date_now_frame now w) as (t & w1 & -> & _). reflexivity.
  - apply remove_found_empty, Hfound.
  - intros Hpos. eexists. split; [apply remove_found; assumption|]. simpl.
    split; [reflexivity|].
    intros k. destruct (_count (this w) - 1 =? 0); [intros [x Hk]; discriminate|].
    unfold assign_undefined.
    destruct (negb (has_own (_inflights (this w)) key) && String.eqb key "__proto__");
      [reflexivity|].
    destruct (String.eqb_spec key k) as [->|Hne].
    + rewrite get_prop_set_prop_eq. intros [x Hk]. discriminate.
    + intros _. apply get_prop_set_prop_ne. exact Hne.
Qed.

Lemma inherited_member_taken_for_entry_witness :
  lookup two_tracked "toString" = FBuiltin (PrototypeFunction "toString") /\
  promise_in SrcIndexTs "toString" pending_factory two_tracked
  = (Normal VUndefined, two_tracked) /\
  add "toString" VNull None two_tracked
  = (Throw (DuplicateKeyError "toString"), two_tracked) /\
  exists w',
    remove "toString" two_tracked = (Normal tt, w') /\ _count (this w') = 1.
Proof.
  pose proof (inherited_member_taken_for_entry SrcIndexTs "toString"
                (PrototypeFunction "toString") two_tracked eq_refl)
    as (H1 & H2 & _ & _ & _ & _ & H7).
  split; [reflexivity|]. split; [apply H1|]. split; [apply H2|].
  destruct (H7 ltac:(reflexivity)) as (w' & Hrun & Hcount & _).
  exists w'. split; [exact Hrun | exact Hcount].
Defined.

(** X24. [resetCheckTime] on a key under which a member of
    [Object.prototype] is found writes the check time on that built-in
    object and leaves the registry as it is; the time written is then
    the check time that [getCheckTime] gives for the key.  Written on
    [Object.prototype] itself (the key ["__proto__"]), it is from then
    on found under the key ["lastXTime"], and inherited by every
    member that has none of its own. *)
Theorem resetCheckTime_writes_on_inherited_member impl key k b now w :
  looked_up impl key = Some k ->
  lookup w k = FBuiltin b ->
  stands now ->
  exists w',
    resetCheckTime_in impl key now w = (Normal VInflight, w') /\
    this w' = this w /\
    written w' = (b, now_or_clock now w) :: written w /\
    getCheckTime k w' = (Normal (Some (now_or_clock now w)), w') /\
    (b = ObjectPrototype ->
     has_own (_inflights (this w)) "lastXTime" = false ->
     lookup w' "lastXTime" = FNumber (now_or_clock now w)).
Proof.
  intros Hlook Hx Hnow.
  rewrite (resetCheckTime_looked_up impl key k now w Hlook).
  unfold reset_key, bind, inflights_at. rewrite Hx. simpl. unfold bind.
  pose proof (now_or_Date_now_written now w) as Hwr.
  destruct (now_or_Date_now_stands now w Hnow) as (w1 & Hrun & Hthis & _).
  rewrite Hrun in *. simpl in Hwr.
  eexists. split; [reflexivity|]. simpl. rewrite Hwr.
  split; [exact Hthis|]. split; [reflexivity|].
  assert (Hb : Builtin_eqb b b = true).
  { destruct b; simpl; [reflexivity | apply String.eqb_refl]. }
  split.
  - unfold getCheckTime, get_lastXTime, bind, inflights_at, ret.
    assert (Hx' : lookup (with_written ((b, now_or_clock now w) :: written w) w1) k
                  = FBuiltin b).
    { revert Hx. unfold lookup, lookup_in. simpl. rewrite Hthis.
      destruct (has_own (_inflights (this w)) k); [auto|].
      unfold inherited. simpl.
      destruct (String.eqb k "__proto__"); [auto|].
      destruct (is_Object_prototype_function k); [auto|].
      destruct (String.eqb k "lastXTime"); [|discriminate].
      destruct (own_lastXTime (written w) ObjectPrototype); discriminate. }
    rewrite Hx'. simpl. unfold builtin_lastXTime. simpl. rewrite Hb. reflexivity.
  - intros -> Hown. unfold lookup, lookup_in. simpl. rewrite Hthis, Hown. reflexivity.
Qed.

Lemma resetCheckTime_writes_on_inherited_member_witness :
  looked_up SrcIndexTs (Some "__proto__"%string) = Some "__proto__"%string /\
  lookup fresh_world "__proto__" = FBuiltin ObjectPrototype /\
  fst (run call_ts [OpGetCheckTime "toString";
                    OpResetCheckTime (Some "__proto__"%string) (Some 7);
                    OpGetCheckTime "toString"; OpGetCheckTime "__proto__";
                    OpGet "lastXTime"; OpAdd "lastXTime" VNull None;
                    OpResetCheckTime (Some "lastXTime"%string) (Some 9)] fresh_world)
  = [Normal VUndefined; Normal VInflight; Normal (VNumber 7); Normal (VNumber 7);
     Normal VUndefined; Throw (DuplicateKeyError "lastXTime");
     Throw (cannot_create_property 7)] /\
  exists w',
    resetCheckTime_in SrcIndexTs (Some "__proto__"%string) (Some 7) fresh_world
    = (Normal VInflight, w') /\
    lookup w' "lastXTime" = FNumber 7.
Proof.
  split; [reflexivity|]. split; [reflexivity|]. split; [reflexivity|].
  destruct (resetCheckTime_writes_on_inherited_member SrcIndexTs
              (Some "__proto__"%string) "__proto__" ObjectPrototype (Some 7) fresh_world
              eq_refl eq_refl ltac:(discriminate))
    as (w' & Hrun & _ & _ & _ & Hlast).
  exists w'. split; [exact Hrun|]. apply Hlast; reflexivity.
Defined.
